(** * Confusion-matrix plotting script: loader, output naming and directory scan

    Shallow embedding of [plot_confusion_matrix.py].  The script reads a CSV
    file with [csv.reader], turns it into labels and a numeric array, hands the
    array to the plotting libraries and saves the figure; a second function
    walks a directory tree and does this for every file whose name matches
    [*confusion_matrix.csv].

    What the script itself does is translated function by function.  The
    library calls it makes are modelled as follows:
    - [open]/[csv.reader]: universal-newline line splitting and the reader
      automaton of CPython's [_csv] module for the default (excel) dialect;
    - [float]: CPython's text-to-float grammar on ASCII text; the value kept
      is the decimal that the text denotes (rounding to binary64 is not
      modelled);
    - [np.array]: shape inference of NumPy 1.24 and later on a list of lists
      of floats;
    - [str.replace], [Path], [Path.rglob] and [fnmatch] on POSIX;
    - [sns.heatmap] and [plt.savefig]: calls whose outcome is supplied by the
      environment; a successful [savefig] is recorded in the trace of the
      run together with the path it was given.

    Text is modelled by [string]; characters outside ASCII are carried
    through unchanged and never count as digits or white space.  The file
    tree is read and never written: saved images are recorded in the trace
    (see [batch_outputs_are_not_inputs] for why a batch run does not depend
    on the images it has already saved). *)

From Stdlib Require Import String Ascii List Bool Arith NArith ZArith Lia.
From Stdlib Require Import DecimalString.
From Stdlib Require DecimalNat DecimalFacts.
Import ListNotations.

Local Open Scope string_scope.
Local Open Scope list_scope.

(** ** Python values, exceptions and results *)

Module Py.

(** The exception classes that the script can meet; [LibraryError] stands
    for what the plotting libraries raise on the data they are given. *)
Inductive exc_class : Type :=
| IndexError
| ValueError
| CsvError
| FileNotFoundError
| IsADirectoryError
| NotADirectoryError
| LibraryError.

(** An exception instance: its class and [str(e)]. *)
Record exc : Type := Exc { exc_cls : exc_class; exc_str : string }.

(** The two error kinds of the specification. *)
Inductive error_kind : Type := ParseError | IOError.

Definition kind_of (e : exc) : error_kind :=
  match exc_cls e with
  | FileNotFoundError | IsADirectoryError | NotADirectoryError => IOError
  | IndexError | ValueError | CsvError | LibraryError => ParseError
  end.

(** A computation that returns a value or raises. *)
Inductive result (A : Type) : Type :=
| Ok (a : A)
| Raise (e : exc).
Arguments Ok {A} a.
Arguments Raise {A} e.

Definition bind {A B : Type} (m : result A) (k : A -> result B) : result B :=
  match m with
  | Ok a => k a
  | Raise e => Raise e
  end.

Definition raises {A : Type} (m : result A) : Prop :=
  exists e, m = Raise e.

Definition raises_cls {A : Type} (m : result A) (c : exc_class) : Prop :=
  exists e, m = Raise e /\ exc_cls e = c.

(** [map] with early exit, as a comprehension or a [for] loop that raises. *)
Fixpoint traverse {A B : Type} (f : A -> result B) (l : list A)
  : result (list B) :=
  match l with
  | [] => Ok []
  | x :: xs =>
      bind (f x) (fun y => bind (traverse f xs) (fun ys => Ok (y :: ys)))
  end.

(** Characters used below. *)
Definition LF : ascii := "010"%char.
Definition CR : ascii := "013"%char.
Definition DQUOTE : ascii := "034"%char.
Definition SQUOTE : ascii := "039"%char.
Definition BACKSLASH : ascii := "092"%char.

Definition string_of_rev (l : list ascii) : string :=
  fold_left (fun s c => String c s) l EmptyString.

(** [s[1:]] on a list and [l[0]] with its [IndexError]. *)
Definition slice_from_1 {A : Type} (l : list A) : list A := tl l.

Definition index_0 {A : Type} (l : list A) : result A :=
  match l with
  | x :: _ => Ok x
  | [] => Raise (Exc IndexError "list index out of range")
  end.

End Py.

Import Py.

Notation "x <- m ;; k" := (Py.bind m (fun x => k))
  (at level 61, m at next level, right associativity).

(** ** Reading the file: text lines and [csv.reader]

    The reader is the one of Python 3.11 and later, for which a NUL
    character is a character like any other. *)

Module Csv.

(** Iterating a file opened with [open(path, 'r')]: the three line endings
    are read as a line feed, and every line keeps its terminator. *)
Fixpoint lines_from (cur : list ascii) (s : string) : list string :=
  match s with
  | EmptyString =>
      match cur with
      | [] => []
      | _ => [string_of_rev cur]
      end
  | String c rest =>
      if Ascii.eqb c LF then
        string_of_rev (LF :: cur) :: lines_from [] rest
      else if Ascii.eqb c CR then
        match rest with
        | String d rest' =>
            if Ascii.eqb d LF
            then string_of_rev (LF :: cur) :: lines_from [] rest'
            else string_of_rev (LF :: cur) :: lines_from [] rest
        | EmptyString => [string_of_rev (LF :: cur)]
        end
      else lines_from (c :: cur) rest
  end.

Definition readlines (content : string) : list string :=
  lines_from [] content.

(** The states of the reader that the default dialect can reach (it has no
    escape character). *)
Inductive ParserState : Type :=
| START_RECORD
| START_FIELD
| IN_FIELD
| IN_QUOTED_FIELD
| QUOTE_IN_QUOTED_FIELD
| EAT_CRNL.

Definition state_eqb (a b : ParserState) : bool :=
  match a, b with
  | START_RECORD, START_RECORD
  | START_FIELD, START_FIELD
  | IN_FIELD, IN_FIELD
  | IN_QUOTED_FIELD, IN_QUOTED_FIELD
  | QUOTE_IN_QUOTED_FIELD, QUOTE_IN_QUOTED_FIELD
  | EAT_CRNL, EAT_CRNL => true
  | _, _ => false
  end.

(** The reader object: the field under construction is kept reversed, the
    fields of the record under construction too. *)
Record ReaderObj : Type := Reader {
  state : ParserState;
  field : list ascii;
  field_len : N;
  fields : list string
}.

Definition field_limit : N := 131072.
Definition delimiter : ascii := ","%char.
Definition quotechar : ascii := DQUOTE.

Definition parse_reset : ReaderObj := Reader START_RECORD [] 0 [].

Definition set_state (self : ReaderObj) (s : ParserState) : ReaderObj :=
  Reader s (field self) (field_len self) (fields self).

Definition parse_save_field (self : ReaderObj) : ReaderObj :=
  Reader (state self) [] 0 (string_of_rev (field self) :: fields self).

Definition parse_add_char (self : ReaderObj) (c : ascii) : result ReaderObj :=
  if (field_limit <=? field_len self)%N then
    Raise (Exc CsvError "field larger than field limit (131072)")
  else
    Ok (Reader (state self) (c :: field self) (field_len self + 1)
               (fields self)).

Definition is_newline (c : ascii) : bool :=
  Ascii.eqb c LF || Ascii.eqb c CR.

(** One step of the automaton; [None] is the end-of-line marker that the
    reader feeds after the characters of each line. *)
Definition start_field (self : ReaderObj) (c : option ascii)
  : result ReaderObj :=
  match c with
  | None => Ok (set_state (parse_save_field self) START_RECORD)
  | Some ch =>
      if is_newline ch then Ok (set_state (parse_save_field self) EAT_CRNL)
      else if Ascii.eqb ch quotechar then Ok (set_state self IN_QUOTED_FIELD)
      else if Ascii.eqb ch delimiter then Ok (parse_save_field self)
      else self' <- parse_add_char self ch ;; Ok (set_state self' IN_FIELD)
  end.

Definition parse_process_char (self : ReaderObj) (c : option ascii)
  : result ReaderObj :=
  match state self with
  | START_RECORD =>
      match c with
      | None => Ok self
      | Some ch =>
          if is_newline ch then Ok (set_state self EAT_CRNL)
          else start_field (set_state self START_FIELD) c
      end
  | START_FIELD => start_field self c
  | IN_FIELD =>
      match c with
      | None => Ok (set_state (parse_save_field self) START_RECORD)
      | Some ch =>
          if is_newline ch
          then Ok (set_state (parse_save_field self) EAT_CRNL)
          else if Ascii.eqb ch delimiter
          then Ok (set_state (parse_save_field self) START_FIELD)
          else parse_add_char self ch
      end
  | IN_QUOTED_FIELD =>
      match c with
      | None => Ok self
      | Some ch =>
          if Ascii.eqb ch quotechar
          then Ok (set_state self QUOTE_IN_QUOTED_FIELD)
          else parse_add_char self ch
      end
  | QUOTE_IN_QUOTED_FIELD =>
      match c with
      | None => Ok (set_state (parse_save_field self) START_RECORD)
      | Some ch =>
          if Ascii.eqb ch quotechar then
            self' <- parse_add_char self ch ;;
            Ok (set_state self' IN_QUOTED_FIELD)
          else if Ascii.eqb ch delimiter
          then Ok (set_state (parse_save_field self) START_FIELD)
          else if is_newline ch
          then Ok (set_state (parse_save_field self) EAT_CRNL)
          else self' <- parse_add_char self ch ;; Ok (set_state self' IN_FIELD)
      end
  | EAT_CRNL =>
      match c with
      | None => Ok (set_state self START_RECORD)
      | Some ch =>
          if is_newline ch then Ok self
          else Raise (Exc CsvError
            "new-line character seen in unquoted field - do you need to open the file with newline=''?")
      end
  end.

Fixpoint process_line (self : ReaderObj) (line : string) : result ReaderObj :=
  match line with
  | EmptyString => parse_process_char self None
  | String c rest =>
      self' <- parse_process_char self (Some c) ;; process_line self' rest
  end.

(** [list(reader)]: a record is complete when the automaton is back in
    [START_RECORD] at the end of a line; input that ends inside a quoted
    field yields the record read so far. *)
Fixpoint records (self : ReaderObj) (lines : list string)
  : result (list (list string)) :=
  match lines with
  | [] =>
      if (0 <? field_len self)%N || state_eqb (state self) IN_QUOTED_FIELD
      then Ok [rev (fields (parse_save_field self))]
      else Ok []
  | line :: rest =>
      self' <- process_line self line ;;
      if state_eqb (state self') START_RECORD then
        rows <- records parse_reset rest ;;
        Ok (rev (fields self') :: rows)
      else records self' rest
  end.

Definition reader (content : string) : result (list (list string)) :=
  records parse_reset (readlines content).

End Csv.

(** ** Built-in functions on text: [repr], [float], [str.replace] *)

Module Text.

Fixpoint to_list (s : string) : list ascii :=
  match s with
  | EmptyString => []
  | String c r => c :: to_list r
  end.

Fixpoint of_list (l : list ascii) : string :=
  match l with
  | [] => EmptyString
  | c :: r => String c (of_list r)
  end.

Definition in_range (lo hi : nat) (c : ascii) : bool :=
  ((lo <=? nat_of_ascii c) && (nat_of_ascii c <=? hi))%nat.

Definition is_digit (c : ascii) : bool := in_range 48 57 c.

(** [Py_ISSPACE]: tab, line feed, vertical tab, form feed, carriage return
    and space. *)
Definition is_space (c : ascii) : bool :=
  in_range 9 13 c || Ascii.eqb c " "%char.

Definition to_lower (c : ascii) : ascii :=
  if in_range 65 90 c then ascii_of_nat (nat_of_ascii c + 32) else c.

Definition hex_digit (n : nat) : ascii :=
  if (n <? 10)%nat then ascii_of_nat (48 + n) else ascii_of_nat (87 + n).

Fixpoint contains (c : ascii) (s : string) : bool :=
  match s with
  | EmptyString => false
  | String d r => Ascii.eqb c d || contains c r
  end.

(** [repr] of a string: single quotes unless the text has a single quote
    and no double quote; backslash escapes for the quote, the backslash and
    control characters. *)
Fixpoint repr_body (q : ascii) (s : string) : string :=
  match s with
  | EmptyString => EmptyString
  | String c r =>
      let rest := repr_body q r in
      if Ascii.eqb c q || Ascii.eqb c BACKSLASH
      then String BACKSLASH (String c rest)
      else if Ascii.eqb c "009"%char then String BACKSLASH (String "t" rest)
      else if Ascii.eqb c LF then String BACKSLASH (String "n" rest)
      else if Ascii.eqb c CR then String BACKSLASH (String "r" rest)
      else if (nat_of_ascii c <? 32)%nat || Ascii.eqb c "127"%char
      then String BACKSLASH (String "x"
             (String (hex_digit (nat_of_ascii c / 16))
                (String (hex_digit (nat_of_ascii c mod 16)) rest)))
      else String c rest
  end.

Definition repr (s : string) : string :=
  let q := if contains SQUOTE s && negb (contains DQUOTE s)
           then DQUOTE else SQUOTE in
  String q (repr_body q s ++ String q EmptyString)%string.

(** The value of a float read from text: the decimal the text denotes,
    [(-1)^neg * mant * 10^exp10], or an infinity, or not-a-number. *)
Inductive pyfloat : Type :=
| Fnan
| Finf (neg : bool)
| Ffin (neg : bool) (mant : N) (exp10 : Z).

Definition float_of_nat (n : nat) : pyfloat := Ffin false (N.of_nat n) 0.

(** Underscores in a numeric literal: each one needs a digit on its left
    and a digit on its right; they are removed before the text is read. *)
Fixpoint strip_underscores (prev : ascii) (s : list ascii)
  : option (list ascii) :=
  match s with
  | [] => if Ascii.eqb prev "_"%char then None else Some []
  | c :: r =>
      if Ascii.eqb c "_"%char then
        if is_digit prev then strip_underscores c r else None
      else if Ascii.eqb prev "_"%char && negb (is_digit c) then None
      else option_map (cons c) (strip_underscores c r)
  end.

Fixpoint drop_spaces (s : list ascii) : list ascii :=
  match s with
  | c :: r => if is_space c then drop_spaces r else s
  | [] => []
  end.

(** Trailing white space is removed down to the last character, never
    beyond the first one. *)
Definition strip_spaces (s : list ascii) : list ascii :=
  match drop_spaces s with
  | [] => []
  | c :: r => c :: rev (drop_spaces (rev r))
  end.

Fixpoint take_digits (s : list ascii) : list ascii * list ascii :=
  match s with
  | c :: r =>
      if is_digit c
      then let (ds, rest) := take_digits r in (c :: ds, rest)
      else ([], s)
  | [] => ([], [])
  end.

Definition digits_value (ds : list ascii) : N :=
  fold_left (fun acc c => (10 * acc + N.of_nat (nat_of_ascii c - 48))%N) ds 0%N.

Definition take_sign (s : list ascii) : bool * list ascii :=
  match s with
  | c :: r =>
      if Ascii.eqb c "-"%char then (true, r)
      else if Ascii.eqb c "+"%char then (false, r)
      else (false, s)
  | [] => (false, [])
  end.

(** An exponent part is read only when it has at least one digit. *)
Definition take_exponent (s : list ascii) : Z * list ascii :=
  match s with
  | c :: r =>
      if Ascii.eqb (to_lower c) "e"%char then
        let (neg, r1) := take_sign r in
        let (ds, r2) := take_digits r1 in
        match ds with
        | [] => (0%Z, s)
        | _ =>
            let e := Z.of_N (digits_value ds) in
            ((if neg then - e else e)%Z, r2)
        end
      else (0%Z, s)
  | [] => (0%Z, [])
  end.

(** [digits [. digits] [exponent]] or [. digits [exponent]], to the end of
    the text. *)
Definition parse_decimal (neg : bool) (s : list ascii) : option pyfloat :=
  let (ip, r1) := take_digits s in
  let (fp, r2) :=
    match r1 with
    | c :: r => if Ascii.eqb c "."%char then take_digits r else ([], r1)
    | [] => ([], r1)
    end in
  match ip ++ fp with
  | [] => None
  | ds =>
      match take_exponent r2 with
      | (e, []) =>
          Some (Ffin neg (digits_value ds) (e - Z.of_nat (length fp)))
      | _ => None
      end
  end.

Definition lower_string (s : list ascii) : string :=
  of_list (map to_lower s).

Definition parse_inf_or_nan (neg : bool) (s : list ascii) : option pyfloat :=
  let t := lower_string s in
  if String.eqb t "inf" || String.eqb t "infinity" then Some (Finf neg)
  else if String.eqb t "nan" then Some Fnan
  else None.

Definition parse_float (x : string) : option pyfloat :=
  match strip_underscores "000"%char (to_list x) with
  | None => None
  | Some s =>
      let (neg, body) := take_sign (strip_spaces s) in
      match parse_decimal neg body with
      | Some v => Some v
      | None => parse_inf_or_nan neg body
      end
  end.

(** [float(x)] for a string [x]. *)
Definition float (x : string) : result pyfloat :=
  match parse_float x with
  | Some v => Ok v
  | None =>
      Raise (Exc ValueError
               ("could not convert string to float: " ++ repr x)%string)
  end.

(** [s.replace(old, new)]: every occurrence of [old], found from the left
    without overlap, becomes [new].  [skip] counts the characters of a
    match that are still to be dropped. *)
Fixpoint replace_from (old new : string) (skip : nat) (s : string) : string :=
  match s with
  | EmptyString => EmptyString
  | String c r =>
      match skip with
      | S k => replace_from old new k r
      | O =>
          if String.prefix old s
          then (new ++ replace_from old new (String.length old - 1) r)%string
          else String c (replace_from old new 0 r)
      end
  end.

Fixpoint intersperse (new : string) (s : string) : string :=
  match s with
  | EmptyString => new
  | String c r => (new ++ String c (intersperse new r))%string
  end.

Definition replace (old new s : string) : string :=
  match old with
  | EmptyString => intersperse new s
  | _ => replace_from old new 0 s
  end.

Definition ends_with (suffix s : string) : Prop :=
  exists p, s = (p ++ suffix)%string.

End Text.

(** ** [np.array] on a list of rows *)

Module Np.

Import Text.

(** An array of floats: its shape and its rows. *)
Record ndarray : Type := Array {
  shape : list nat;
  data : list (list pyfloat)
}.

Definition same_length (n : nat) (rows : list (list pyfloat)) : bool :=
  forallb (fun r => (length r =? n)%nat) rows.

(** No rows give the one-dimensional empty array; rows of one length give
    a two-dimensional array; rows of different lengths are refused. *)
Definition array (rows : list (list pyfloat)) : result ndarray :=
  match rows with
  | [] => Ok (Array [0] [])
  | r :: _ =>
      if same_length (length r) rows
      then Ok (Array [length rows; length r] rows)
      else Raise (Exc ValueError
        "setting an array element with a sequence. The requested array has an inhomogeneous shape after 1 dimensions.")
  end.

End Np.

(** ** Files, paths and the recursive glob *)

Module Posix.

Import Text.

(** A file system tree; a directory lists its entries in the order in
    which [scandir] returns them. *)
#[warnings="-register-all"] Inductive node : Type :=
| File (content : string)
| Dir (entries : list (string * node)).

Fixpoint split_from (sep : ascii) (cur : list ascii) (s : string)
  : list string :=
  match s with
  | EmptyString => [string_of_rev cur]
  | String c r =>
      if Ascii.eqb c sep
      then string_of_rev cur :: split_from sep [] r
      else split_from sep (c :: cur) r
  end.

Definition split (sep : ascii) (s : string) : list string :=
  split_from sep [] s.

Fixpoint join (sep : string) (l : list string) : string :=
  match l with
  | [] => EmptyString
  | [x] => x
  | x :: r => (x ++ sep ++ join sep r)%string
  end.

Fixpoint find_entry (name : string) (es : list (string * node))
  : option node :=
  match es with
  | [] => None
  | (n, x) :: r => if String.eqb n name then Some x else find_entry name r
  end.

Inductive lookup : Type :=
| Found (n : node)
| Missing
| NotDir.

(** Path resolution, one component at a time; [stack] holds the
    directories above the current one.  Every component, empty ones
    included, needs a directory to be looked up in. *)
Fixpoint walk_path (stack : list node) (cur : node) (comps : list string)
  : lookup :=
  match comps with
  | [] => Found cur
  | c :: rest =>
      match cur with
      | File _ => NotDir
      | Dir es =>
          if String.eqb c "" || String.eqb c "." then walk_path stack cur rest
          else if String.eqb c ".." then
            match stack with
            | [] => walk_path [] cur rest
            | up :: st => walk_path st up rest
            end
          else
            match find_entry c es with
            | Some n => walk_path (cur :: stack) n rest
            | None => Missing
            end
      end
  end.

(** The tree is the working directory of the process and stands for the
    root directory as well. *)
Definition stat (root : node) (path : string) : lookup :=
  match path with
  | EmptyString => Missing
  | _ => walk_path [] root (split "/" path)
  end.

Definition isfile (root : node) (path : string) : bool :=
  match stat root path with
  | Found (File _) => true
  | _ => false
  end.

Definition isdir (root : node) (path : string) : bool :=
  match stat root path with
  | Found (Dir _) => true
  | _ => false
  end.

(** [open(path, 'r')] followed by reading the whole file. *)
Definition open_read (root : node) (path : string) : result string :=
  match stat root path with
  | Found (File content) => Ok content
  | Found (Dir _) =>
      Raise (Exc IsADirectoryError
               ("[Errno 21] Is a directory: " ++ repr path)%string)
  | Missing =>
      Raise (Exc FileNotFoundError
               ("[Errno 2] No such file or directory: " ++ repr path)%string)
  | NotDir =>
      Raise (Exc NotADirectoryError
               ("[Errno 20] Not a directory: " ++ repr path)%string)
  end.

(** [pathlib.Path] on POSIX: an anchor and the components that are neither
    empty nor a single dot. *)
Record PurePath : Type := MkPath {
  anchor : string;
  parts : list string
}.

Definition is_real_part (c : string) : bool :=
  negb (String.eqb c "" || String.eqb c ".").

Definition Path (s : string) : PurePath :=
  let a :=
    if String.prefix "//" s && negb (String.prefix "///" s) then "//"
    else if String.prefix "/" s then "/"
    else "" in
  MkPath a (filter is_real_part (split "/" s)).

Definition str (p : PurePath) : string :=
  match parts p with
  | [] => if String.eqb (anchor p) "" then "." else anchor p
  | ps => (anchor p ++ join "/" ps)%string
  end.

Definition joinpath (p : PurePath) (rel : list string) : PurePath :=
  MkPath (anchor p) (parts p ++ rel).

(** Shell-style patterns without bracket expressions: [*] is any run of
    characters, [?] any one character. *)
Inductive tok : Type :=
| Star
| Any
| Lit (c : ascii).

Fixpoint compile (pat : string) : list tok :=
  match pat with
  | EmptyString => []
  | String c r =>
      (if Ascii.eqb c "*"%char then Star
       else if Ascii.eqb c "?"%char then Any
       else Lit c) :: compile r
  end.

Fixpoint matches (p : list tok) (s : string) : bool :=
  match p with
  | [] =>
      match s with
      | EmptyString => true
      | String _ _ => false
      end
  | Star :: p' =>
      (fix star (s : string) : bool :=
         matches p' s ||
         match s with
         | EmptyString => false
         | String _ r => star r
         end) s
  | Any :: p' =>
      match s with
      | String _ r => matches p' r
      | EmptyString => false
      end
  | Lit c :: p' =>
      match s with
      | String d r => Ascii.eqb c d && matches p' r
      | EmptyString => false
      end
  end.

Definition fnmatch (name pat : string) : bool := matches (compile pat) name.

(** The entries below a directory whose name matches the pattern, as
    component lists relative to that directory: first the entries of the
    directory itself, then those of each sub-directory in turn. *)
Fixpoint rglob_from (pat : string) (n : node) : list (list string) :=
  match n with
  | File _ => []
  | Dir es =>
      map (fun e => [fst e]) (filter (fun e => fnmatch (fst e) pat) es) ++
      flat_map (fun e : string * node =>
                  let (name, child) := e in
                  map (cons name) (rglob_from pat child)) es
  end.

(** [Path(directory).rglob(pat)], as a list. *)
Definition rglob (root : node) (p : PurePath) (pat : string)
  : list PurePath :=
  match stat root (str p) with
  | Found (Dir es) => map (joinpath p) (rglob_from pat (Dir es))
  | _ => []
  end.

(** [n] is reached from [t] by descending through the names [comps]. *)
Inductive reaches : node -> list string -> node -> Prop :=
| reaches_here : forall t, reaches t [] t
| reaches_step : forall es name child comps n,
    In (name, child) es ->
    reaches child comps n ->
    reaches (Dir es) (name :: comps) n.

(** Induction on trees, with the property available for every entry of a
    directory. *)
Fixpoint node_induction (P : node -> Prop)
  (HF : forall content, P (File content))
  (HD : forall es, Forall (fun e => P (snd e)) es -> P (Dir es))
  (n : node) : P n :=
  match n with
  | File content => HF content
  | Dir es =>
      HD es ((fix entries (es : list (string * node))
                : Forall (fun e => P (snd e)) es :=
                match es with
                | [] => Forall_nil _
                | (name, child) :: r =>
                    Forall_cons (name, child)
                      (node_induction P HF HD child) (entries r)
                end) es)
  end.

End Posix.

(** ** The script *)

Import Text Np Posix.

(** The loaded table: column labels, row labels and the array. *)
Record ConfusionMatrix : Type := MkMatrix {
  class_labels : list string;
  row_labels : list string;
  matrix : ndarray
}.

(** What the plotting calls of lines 42 to 52 put on the figure. *)
Record Figure : Type := MkFigure {
  fig_data : ndarray;
  fig_xticklabels : list string;
  fig_yticklabels : list string;
  fig_xlabel : string;
  fig_ylabel : string;
  fig_title : string
}.

(** The world around the script: the file tree it reads, and whether the
    plotting calls and [savefig] raise. *)
Record Env : Type := MkEnv {
  root : node;
  heatmap_raises : ConfusionMatrix -> option exc;
  savefig_raises : string -> Figure -> option exc
}.

(** What a run does that can be seen from outside. *)
Inductive event : Type :=
| Print (line : string)
| Savefig (path : string) (fig : Figure).

(** One data row of the file: its label and its values (lines 36 and 37). *)
Definition parse_row (row : list string) : result (string * list pyfloat) :=
  label <- index_0 row ;;
  values <- traverse float (slice_from_1 row) ;;
  Ok (label, values).

(** Lines 29 to 37 on the rows that [csv.reader] returned. *)
Definition parse_rows (rows : list (list string))
  : result (list string * list (string * list pyfloat)) :=
  header <- index_0 rows ;;
  parsed <- traverse parse_row (slice_from_1 rows) ;;
  Ok (slice_from_1 header, parsed).

(** Lines 26 to 39: from the text of the file to the loaded table. *)
Definition load_matrix (content : string) : result ConfusionMatrix :=
  rows <- Csv.reader content ;;
  p <- parse_rows rows ;;
  m <- Np.array (map snd (snd p)) ;;
  Ok (MkMatrix (fst p) (map fst (snd p)) m).

Definition figure_of (cm : ConfusionMatrix) : Figure :=
  MkFigure (matrix cm) (class_labels cm) (row_labels cm)
           "Predicted Class" "Actual Class" "Confusion Matrix".

(** Line 56: the name of the image when none is given. *)
Definition default_output (csv_file : string) : string :=
  replace ".csv" ".png" csv_file.

(** Lines 55 and 56: the path the image is saved under. *)
Definition output_path (csv_file : string) (output_file : option string)
  : string :=
  match output_file with
  | None => default_output csv_file
  | Some o => o
  end.

(** [csv_file] is the text of the path: the function uses its argument only
    through [open], [str] and string formatting. *)
Definition plot_confusion_matrix (env : Env) (csv_file : string)
  (output_file : option string) : list event * result unit :=
  match (content <- open_read (root env) csv_file ;; load_matrix content) with
  | Raise e => ([], Raise e)
  | Ok cm =>
      match heatmap_raises env cm with
      | Some e => ([], Raise e)
      | None =>
          let fig := figure_of cm in
          let output_file := output_path csv_file output_file in
          match savefig_raises env output_file fig with
          | Some e => ([], Raise e)
          | None =>
              ([Savefig output_file fig;
                Print ("✓ Saved confusion matrix image: " ++ output_file)%string],
               Ok tt)
          end
      end
  end.

Definition decimal (n : nat) : string :=
  DecimalString.NilEmpty.string_of_uint (Nat.to_uint n).

Definition scan_pattern : string := "*confusion_matrix.csv".

(** The body of the loop of lines 78 to 82. *)
Definition process_one (env : Env) (csv_file : PurePath) : list event :=
  let (evs, r) := plot_confusion_matrix env (str csv_file) None in
  match r with
  | Ok _ => evs
  | Raise e =>
      evs ++ [Print ("✗ Error processing " ++ str csv_file ++ ": "
                       ++ exc_str e)%string]
  end.

Definition plot_all_confusion_matrices (env : Env) (directory : string)
  : list event :=
  let csv_files := rglob (root env) (Path directory) scan_pattern in
  match csv_files with
  | [] =>
      [Print ("No confusion matrix CSV files found in " ++ directory)%string]
  | _ =>
      Print ("Found " ++ decimal (length csv_files)
               ++ " confusion matrix file(s)")%string
      :: flat_map (process_one env) csv_files
  end.

Definition usage : list event :=
  [Print "Usage:";
   Print "  python plot_confusion_matrix.py <csv_file>         # Plot single file";
   Print "  python plot_confusion_matrix.py <directory>        # Plot all CSV files in directory";
   Print "";
   Print "Examples:";
   Print "  python plot_confusion_matrix.py results/baseline/j48/confusion_matrix.csv";
   Print "  python plot_confusion_matrix.py results/"].

(** The run of the script on [sys.argv]: what it prints and saves, and the
    exit status of the process (an exception that nothing catches ends it
    with status 1). *)
Definition main (env : Env) (argv : list string) : list event * nat :=
  match argv with
  | [] | [_] => (usage, 1)
  | _ :: path :: rest =>
      if isfile (root env) path then
        let output_file :=
          match rest with
          | o :: _ => Some o
          | [] => None
          end in
        match plot_confusion_matrix env path output_file with
        | (evs, Ok _) => (evs, 0)
        | (evs, Raise _) => (evs, 1)
        end
      else if isdir (root env) path then
        (plot_all_confusion_matrices env path, 0)
      else
        ([Print ("Error: " ++ path ++ " is not a valid file or directory")%string],
         1)
  end.

(** ** Vocabulary of the specification *)

(** A cell is numeric when [float] accepts it. *)
Definition is_numeric (cell : string) : bool :=
  match parse_float cell with
  | Some _ => true
  | None => false
  end.

(** A well-formed input with [R] data rows and [C] value columns: a header of
    [C + 1] cells and, below it, at least one row, each made of a label and
    [C] numeric cells.  (The specification counts a file of fewer than two
    rows as malformed.) *)
Definition well_formed (rows : list (list string)) (R C : nat) : bool :=
  match rows with
  | [] => false
  | header :: data =>
      (length data =? R)%nat && (1 <=? R)%nat && (length header =? S C)%nat &&
      forallb (fun row => (length row =? S C)%nat
                          && forallb is_numeric (slice_from_1 row)) data
  end.

(** Data rows that all carry a label and numeric values, but not all the same
    number of values. *)
Definition labelled_numeric (data : list (list string)) : Prop :=
  Forall (fun row => row <> [] /\ forallb is_numeric (slice_from_1 row) = true)
         data.

Definition ragged (data : list (list string)) : Prop :=
  exists r1 r2, In r1 data /\ In r2 data /\
                length (slice_from_1 r1) <> length (slice_from_1 r2).

(** The file at [csv_file] loads to [cm]; the file at [csv_file] is
    malformed. *)
Definition loads (env : Env) (csv_file : string) (cm : ConfusionMatrix) : Prop :=
  (content <- open_read (root env) csv_file ;; load_matrix content) = Ok cm.

Definition malformed (env : Env) (csv_file : string) (e : exc) : Prop :=
  exists content,
    open_read (root env) csv_file = Ok content /\
    load_matrix content = Raise e.

(** The line that reports a failure on a file in a batch run. *)
Definition error_line (csv_file : PurePath) (e : exc) : string :=
  "✗ Error processing " ++ str csv_file ++ ": " ++ exc_str e.

(** A file of a batch run that loads, is plotted and is saved under its
    default name. *)
Definition processed (env : Env) (csv_file : PurePath) : Prop :=
  exists cm,
    loads env (str csv_file) cm /\
    heatmap_raises env cm = None /\
    savefig_raises env (default_output (str csv_file)) (figure_of cm) = None.

(** The images saved and the errors reported during a run. *)
Definition saved_paths (trace : list event) : list string :=
  flat_map (fun ev => match ev with
                      | Savefig p _ => [p]
                      | Print _ => []
                      end) trace.

Definition error_lines (trace : list event) : list string :=
  flat_map (fun ev => match ev with
                      | Print l =>
                          if String.prefix "✗ Error processing " l then [l] else []
                      | Savefig _ _ => []
                      end) trace.

Definition suffix : string := "confusion_matrix.csv".

(** The input of the specification's example. *)
Definition example_csv : string :=
  String "," ("A,B" ++ String LF ("X,2,3" ++ String LF "Y,4,5")).

(** An input with a cell that is not a number, and one with a blank line
    between the header and the data. *)
Definition bad_cell_csv : string := "h,a" ++ String LF "X,zz".

Definition blank_line_csv : string := "h,a" ++ String LF (String LF "X,1").

(** An input whose data rows have two values and one value. *)
Definition ragged_csv : string :=
  "h,a,b" ++ String LF ("X,1,2" ++ String LF "Y,3").

(** A small tree: three files match the pattern of the scan, one of them
    with a cell that is not a number, one of them in a sub-directory. *)
Definition sample_tree : node :=
  Dir [("results",
        Dir [("confusion_matrix.csv", File example_csv);
             ("bad_confusion_matrix.csv",
              File ("h,a,b" ++ String LF "r,1,zz"));
             ("notes.txt", File "nothing to plot");
             ("j48", Dir [("my_confusion_matrix.csv", File example_csv);
                          ("confusion_matrix.txt", File "")])]);
       ("empty", Dir [("readme.md", File "")]);
       ("cm.csv", File example_csv)].

Definition sample_env : Env :=
  MkEnv sample_tree (fun _ => None) (fun _ _ => None).

(** ** Vocabulary of the further properties *)

(** [old] occurs somewhere in [s]. *)
Fixpoint occurs (old s : string) : bool :=
  String.prefix old s ||
  match s with
  | EmptyString => false
  | String _ r => occurs old r
  end.

(** The same text with every line feed written as carriage return and line
    feed. *)
Fixpoint to_crlf (s : string) : string :=
  match s with
  | EmptyString => EmptyString
  | String c r =>
      if Ascii.eqb c LF then String CR (String LF (to_crlf r))
      else String c (to_crlf r)
  end.

(** How the call of line 80 ends for one file of a batch run, and the error
    line that the run prints for it, if any. *)
Definition outcome (env : Env) (csv_file : PurePath) : result unit :=
  snd (plot_confusion_matrix env (str csv_file) None).

Definition succeeded (env : Env) (csv_file : PurePath) : bool :=
  match outcome env csv_file with
  | Ok _ => true
  | Raise _ => false
  end.

Definition reported (env : Env) (csv_file : PurePath) : list string :=
  match outcome env csv_file with
  | Ok _ => []
  | Raise e => [error_line csv_file e]
  end.

(** A cell without comma, double quote, carriage return or line feed; the
    line of a row of cells; the text of a list of lines, each ended by a
    line feed. *)
Definition plain_char (c : ascii) : bool :=
  negb (Ascii.eqb c ","%char || Ascii.eqb c DQUOTE
        || Ascii.eqb c CR || Ascii.eqb c LF).

Fixpoint plain_cell (s : string) : bool :=
  match s with
  | EmptyString => true
  | String c r => plain_char c && plain_cell r
  end.

Definition csv_line (row : list string) : string := join "," row.

Fixpoint unlines (ls : list string) : string :=
  match ls with
  | [] => EmptyString
  | l :: r => l ++ String LF (unlines r)
  end.

Definition csv_text (rows : list (list string)) : string :=
  unlines (map csv_line rows).

(** A line as the iteration over the file yields it: without carriage
    return, and with a line feed as its last character or not at all. *)
Fixpoint well_terminated (line : string) : bool :=
  match line with
  | EmptyString => true
  | String c r =>
      if Csv.is_newline c
      then Ascii.eqb c LF && String.eqb r EmptyString
      else well_terminated r
  end.

Fixpoint no_newline (s : string) : bool :=
  match s with
  | EmptyString => true
  | String c r => negb (Csv.is_newline c) && no_newline r
  end.

(** The characters of a line under construction, none of them a line end. *)
Definition clean (cur : list ascii) : Prop :=
  no_newline (string_of_rev cur) = true.

Definition total_length (lines : list string) : nat :=
  list_sum (map String.length lines).

(** A cell that is no longer than the reader lets a field be. *)
Definition fits (cell : string) : Prop :=
  (N.of_nat (String.length cell) <= Csv.field_limit)%N.




(** A tree as a file system has it: the names in a directory are distinct,
    not empty, neither a dot nor two dots, and without a slash. *)
Definition proper_name (name : string) : bool :=
  negb (String.eqb name "") && negb (String.eqb name ".")
  && negb (String.eqb name "..") && negb (contains "/"%char name).

Fixpoint distinct (names : list string) : bool :=
  match names with
  | [] => true
  | n :: r => negb (existsb (String.eqb n) r) && distinct r
  end.

Fixpoint proper (n : node) : bool :=
  match n with
  | File _ => true
  | Dir es =>
      distinct (map fst es) &&
      forallb (fun e : string * node =>
                 let (name, child) := e in proper_name name && proper child) es
  end.

(** The components that the text of an anchor splits into. *)
Definition anchor_parts (a : string) : list string :=
  if String.eqb a "//" then [""; ""]
  else if String.eqb a "/" then [""]
  else [].

(** A tree with a directory whose name matches the pattern of the scan. *)
Definition tree_with_matching_directory : node :=
  Dir [("runs", Dir [("old_confusion_matrix.csv",
                      Dir [("part1.txt", File "1,2")])])].

(** A second header for the rows of [example_csv], wider than the rows. *)
Definition wide_header_csv : string :=
  "corner,P,Q,R,S" ++ String LF ("X,2,3" ++ String LF "Y,4,5").

(** * Properties *)

(** ** The library models on known inputs *)

Example reader_example_csv :
  Csv.reader example_csv
  = Ok [[""; "A"; "B"]; ["X"; "2"; "3"]; ["Y"; "4"; "5"]].
Proof. reflexivity. Qed.

(** A quoted field keeps its comma and its line break, and a doubled quote
    stands for one quote; a blank line is an empty row; the three line
    endings are read alike. *)
Example reader_quoted_field :
  Csv.reader (String DQUOTE ("b,c" ++ String LF ("d" ++ String DQUOTE
               (String DQUOTE ("z" ++ String DQUOTE
                 (",e" ++ String CR (String LF (String LF "x,y"))))))))
  = Ok [[("b,c" ++ String LF ("d" ++ String DQUOTE "z"))%string; "e"];
        []; ["x"; "y"]].
Proof. reflexivity. Qed.

Example reader_line_endings :
  Csv.reader ("a,b" ++ String CR (String CR "c")) = Ok [["a"; "b"]; []; ["c"]].
Proof. reflexivity. Qed.

Example reader_empty_file : Csv.reader "" = Ok [].
Proof. reflexivity. Qed.

Example float_accepts :
  map parse_float [" 1e5 "; "1_000"; "1."; ".5"; "-inf"; "nAn"; "1.5e-3"]
  = [Some (Ffin false 1 5); Some (Ffin false 1000 0); Some (Ffin false 1 0);
     Some (Ffin false 5 (-1)); Some (Finf true); Some Fnan;
     Some (Ffin false 15 (-4))].
Proof. reflexivity. Qed.

Example float_refuses :
  map is_numeric [""; " "; "."; "abc"; "1__0"; "_1"; "1_"; "1e"; "+-1";
                  "0x10"; "infin"; "1 2"; "1_e5"]
  = repeat false 13.
Proof. reflexivity. Qed.

Example float_error_message :
  float "zz" = Raise (Exc ValueError "could not convert string to float: 'zz'").
Proof. reflexivity. Qed.

Example replace_is_leftmost :
  replace "aa" "b" "aaaaa" = "bba" /\ replace "" "-" "abc" = "-a-b-c-".
Proof. split; reflexivity. Qed.

Example path_normal_form :
  map (fun s => str (Path s)) ["results/"; "./a"; "a//b"; "//x"; "///x"; ""; "/"]
  = ["results"; "a"; "a/b"; "//x"; "/x"; "."; "/"].
Proof. reflexivity. Qed.

Example sample_batch_run :
  main sample_env ["prog"; "results"] =
  ([Print "Found 3 confusion matrix file(s)";
    Savefig "results/confusion_matrix.png"
      (MkFigure (Array [2; 2] [[float_of_nat 2; float_of_nat 3];
                               [float_of_nat 4; float_of_nat 5]])
         ["A"; "B"] ["X"; "Y"]
         "Predicted Class" "Actual Class" "Confusion Matrix");
    Print "✓ Saved confusion matrix image: results/confusion_matrix.png";
    Print "✗ Error processing results/bad_confusion_matrix.csv: could not convert string to float: 'zz'";
    Savefig "results/j48/my_confusion_matrix.png"
      (MkFigure (Array [2; 2] [[float_of_nat 2; float_of_nat 3];
                               [float_of_nat 4; float_of_nat 5]])
         ["A"; "B"] ["X"; "Y"]
         "Predicted Class" "Actual Class" "Confusion Matrix");
    Print "✓ Saved confusion matrix image: results/j48/my_confusion_matrix.png"],
   0).
Proof. reflexivity. Qed.

Example sample_invalid_path :
  main sample_env ["prog"; "nowhere"] =
  ([Print "Error: nowhere is not a valid file or directory"], 1) /\
  main sample_env ["prog"] = (usage, 1).
Proof. split; reflexivity. Qed.

(** ** Results and loops *)

Lemma bind_Ok_inv {A B : Type} (m : result A) (k : A -> result B) (b : B) :
  Py.bind m k = Ok b -> exists a, m = Ok a /\ k a = Ok b.
Proof.
  destruct m as [a | e]; simpl; intros H.
  - exists a; auto.
  - discriminate.
Qed.

Lemma traverse_Ok_Forall2 {A B : Type} (f : A -> result B) :
  forall l ys, traverse f l = Ok ys -> Forall2 (fun x y => f x = Ok y) l ys.
Proof.
  induction l as [| x xs IH]; simpl; intros ys H.
  - injection H as <-. constructor.
  - apply bind_Ok_inv in H as (y & Hy & H).
    apply bind_Ok_inv in H as (ys' & Hys & H).
    injection H as <-. constructor; auto.
Qed.

Lemma Forall2_traverse_Ok {A B : Type} (f : A -> result B) :
  forall l ys, Forall2 (fun x y => f x = Ok y) l ys -> traverse f l = Ok ys.
Proof.
  induction 1 as [| x y xs ys Hx _ IH]; simpl; auto.
  rewrite Hx; simpl. rewrite IH; reflexivity.
Qed.

Lemma traverse_total {A B : Type} (f : A -> result B) :
  forall l, Forall (fun x => exists y, f x = Ok y) l ->
            exists ys, traverse f l = Ok ys.
Proof.
  induction 1 as [| x xs (y & Hy) _ (ys & IH)]; simpl.
  - eexists; reflexivity.
  - rewrite Hy; simpl. rewrite IH; simpl. eexists; reflexivity.
Qed.

(** A loop stops at the first element on which its body raises. *)
Lemma traverse_first_failure {A B : Type} (f : A -> result B) :
  forall pre x post e,
    Forall (fun x => exists y, f x = Ok y) pre ->
    f x = Raise e ->
    traverse f (pre ++ x :: post) = Raise e.
Proof.
  induction pre as [| p pre IH]; simpl; intros x post e Hpre Hx.
  - rewrite Hx; reflexivity.
  - inversion Hpre as [| ? ? (y & Hy) Hrest]; subst.
    rewrite Hy; simpl. rewrite (IH _ _ _ Hrest Hx); reflexivity.
Qed.

(** Whatever fails inside a loop, the loop fails, and with an exception that
    its body raised on some element. *)
Lemma traverse_raises {A B : Type} (f : A -> result B) :
  forall l x, In x l -> raises (f x) ->
              exists y e, In y l /\ f y = Raise e /\ traverse f l = Raise e.
Proof.
  induction l as [| a l IH]; simpl; intros x Hin Hx; [contradiction |].
  destruct (f a) as [b | e] eqn:Ha.
  - destruct Hin as [-> | Hin].
    + destruct Hx as (e & He). congruence.
    + destruct (IH x Hin Hx) as (y & e & Hy & Hfy & Ht).
      exists y, e. simpl. rewrite Ht. auto.
  - exists a, e. simpl. auto.
Qed.

Lemma traverse_length {A B : Type} (f : A -> result B) :
  forall l ys, traverse f l = Ok ys -> length ys = length l.
Proof.
  intros l ys H. apply traverse_Ok_Forall2 in H.
  induction H; simpl; auto.
Qed.

(** ** [float] and the cells of a row *)

Lemma float_numeric (cell : string) :
  is_numeric cell = true <-> exists v, float cell = Ok v.
Proof.
  unfold is_numeric, float. destruct (parse_float cell) as [v |]; split.
  - intros _. exists v; reflexivity.
  - reflexivity.
  - discriminate.
  - intros (v & H). discriminate.
Qed.

Lemma float_not_numeric (cell : string) :
  is_numeric cell = false ->
  exists e, float cell = Raise e /\ exc_cls e = ValueError.
Proof.
  unfold is_numeric, float. destruct (parse_float cell); [discriminate |].
  intros _. eexists; split; reflexivity.
Qed.

Lemma float_raises_class (cell : string) (e : exc) :
  float cell = Raise e -> exc_cls e = ValueError.
Proof.
  unfold float. destruct (parse_float cell); [discriminate |].
  intros H. injection H as <-. reflexivity.
Qed.

Lemma traverse_float_numeric (cells : list string) :
  forallb is_numeric cells = true ->
  exists vs, traverse float cells = Ok vs /\ length vs = length cells.
Proof.
  intros H.
  destruct (traverse_total float cells) as (vs & Hvs).
  - apply Forall_forall. intros c Hc. apply float_numeric.
    rewrite forallb_forall in H. auto.
  - exists vs. split; [assumption | eapply traverse_length; eassumption].
Qed.

Lemma traverse_float_raises_class (cells : list string) (e : exc) :
  traverse float cells = Raise e -> exc_cls e = ValueError.
Proof.
  induction cells as [| c cs IH]; simpl; [discriminate |].
  destruct (float c) as [v |] eqn:Hc; simpl.
  - destruct (traverse float cs); simpl; [discriminate |].
    intros H. injection H as <-. auto.
  - intros H. injection H as <-. eapply float_raises_class; eassumption.
Qed.

(** A row is parsed when it has a label and numeric values, and only then;
    what it raises is an [IndexError] when the row is empty and a
    [ValueError] otherwise. *)
Lemma parse_row_Ok (row : list string) :
  row <> [] -> forallb is_numeric (slice_from_1 row) = true ->
  exists vs, parse_row row = Ok (hd EmptyString row, vs) /\
             traverse float (slice_from_1 row) = Ok vs /\
             length vs = length (slice_from_1 row).
Proof.
  intros Hne Hnum. destruct row as [| label cells]; [congruence |].
  destruct (traverse_float_numeric _ Hnum) as (vs & Hvs & Hlen).
  exists vs. unfold parse_row; simpl in *. rewrite Hvs. auto.
Qed.

Lemma parse_row_Ok_inv (row : list string) (label : string)
  (vs : list pyfloat) :
  parse_row row = Ok (label, vs) ->
  exists cells, row = label :: cells /\ traverse float cells = Ok vs.
Proof.
  unfold parse_row. destruct row as [| l cells]; simpl; [discriminate |].
  destruct (traverse float cells) as [vs' |] eqn:Hc; simpl; [| discriminate].
  intros H. injection H as <- <-. eauto.
Qed.

Lemma parse_row_empty :
  raises_cls (parse_row []) IndexError.
Proof. eexists; split; reflexivity. Qed.

Lemma parse_row_raises_class (row : list string) (e : exc) :
  parse_row row = Raise e ->
  (row = [] /\ exc_cls e = IndexError) \/ (row <> [] /\ exc_cls e = ValueError).
Proof.
  unfold parse_row. destruct row as [| l cells]; simpl.
  - intros H. injection H as <-. left; auto.
  - destruct (traverse float cells) eqn:Hc; simpl; [discriminate |].
    intros H. injection H as <-. right. split; [discriminate |].
    eapply traverse_float_raises_class; eassumption.
Qed.

Lemma parse_row_bad_cell (row : list string) (cell : string) :
  In cell (slice_from_1 row) -> is_numeric cell = false ->
  raises (parse_row row).
Proof.
  intros Hin Hbad. unfold parse_row.
  destruct row as [| l cells]; simpl in *; [contradiction |].
  destruct (float_not_numeric _ Hbad) as (e & He & _).
  destruct (traverse_raises float cells cell Hin (ex_intro _ e He))
    as (y & e' & _ & _ & Ht).
  rewrite Ht. eexists; reflexivity.
Qed.

(** ** The reader raises nothing but its own error *)

Lemma parse_add_char_class (self : Csv.ReaderObj) (c : ascii) (e : exc) :
  Csv.parse_add_char self c = Raise e -> exc_cls e = CsvError.
Proof.
  unfold Csv.parse_add_char.
  destruct (_ <=? _)%N; [| discriminate].
  intros H. injection H as <-. reflexivity.
Qed.

Lemma parse_process_char_class (self : Csv.ReaderObj) (c : option ascii)
  (e : exc) :
  Csv.parse_process_char self c = Raise e -> exc_cls e = CsvError.
Proof.
  unfold Csv.parse_process_char, Csv.start_field.
  destruct (Csv.state self), c as [ch |]; try discriminate;
    repeat match goal with
           | |- context [if ?b then _ else _] => destruct b
           end;
    try discriminate;
    try (apply parse_add_char_class);
    try (destruct (Csv.parse_add_char _ ch) eqn:Hadd; simpl;
         [discriminate |
          intros H; injection H as <-;
          eapply parse_add_char_class; eassumption]).
  intros H. injection H as <-. reflexivity.
Qed.

Lemma process_line_class (line : string) :
  forall self e, Csv.process_line self line = Raise e -> exc_cls e = CsvError.
Proof.
  induction line as [| c rest IH]; simpl; intros self e H.
  - eapply parse_process_char_class; eassumption.
  - destruct (Csv.parse_process_char self (Some c)) as [self' |] eqn:Hc;
      simpl in H.
    + eapply IH; eassumption.
    + injection H as <-. eapply parse_process_char_class; eassumption.
Qed.

Lemma records_class (lines : list string) :
  forall self e, Csv.records self lines = Raise e -> exc_cls e = CsvError.
Proof.
  induction lines as [| line rest IH]; simpl; intros self e H.
  - destruct (_ || _); discriminate.
  - destruct (Csv.process_line self line) as [self' |] eqn:Hl; simpl in H.
    + destruct (Csv.state_eqb (Csv.state self') Csv.START_RECORD).
      * destruct (Csv.records Csv.parse_reset rest) eqn:Hr; simpl in H;
          [discriminate |].
        injection H as <-. eapply IH; eassumption.
      * eapply IH; eassumption.
    + injection H as <-. eapply process_line_class; eassumption.
Qed.

Lemma reader_class (content : string) (e : exc) :
  Csv.reader content = Raise e -> exc_cls e = CsvError.
Proof. apply records_class. Qed.

(** ** The loader on the rows of the file *)

Lemma array_data (rows : list (list pyfloat)) (m : ndarray) :
  Np.array rows = Ok m -> data m = rows.
Proof.
  unfold Np.array. destruct rows as [| r rs].
  - intros H. injection H as <-. reflexivity.
  - destruct (same_length _ _); [| discriminate].
    intros H. injection H as <-. reflexivity.
Qed.

Lemma array_raises_class (rows : list (list pyfloat)) (e : exc) :
  Np.array rows = Raise e -> exc_cls e = ValueError.
Proof.
  unfold Np.array. destruct rows as [| r rs]; [discriminate |].
  destruct (same_length _ _); [discriminate |].
  intros H. injection H as <-. reflexivity.
Qed.

Lemma array_rectangular (rows : list (list pyfloat)) (C : nat) :
  rows <> [] -> Forall (fun r => length r = C) rows ->
  Np.array rows = Ok (Array [length rows; C] rows).
Proof.
  intros Hne Hall. unfold Np.array. destruct rows as [| r rs]; [congruence |].
  assert (Hr : length r = C) by (inversion Hall; assumption).
  rewrite Hr.
  assert (Hs : same_length C (r :: rs) = true).
  { unfold same_length. apply forallb_forall. intros x Hx.
    rewrite Forall_forall in Hall. apply Nat.eqb_eq. auto. }
  rewrite Hs. reflexivity.
Qed.

Lemma array_ragged (rows : list (list pyfloat)) (v1 v2 : list pyfloat) :
  In v1 rows -> In v2 rows -> length v1 <> length v2 ->
  raises_cls (Np.array rows) ValueError.
Proof.
  intros H1 H2 Hne. unfold Np.array.
  destruct rows as [| r rs]; [contradiction |].
  destruct (same_length (length r) (r :: rs)) eqn:Hs.
  - unfold same_length in Hs. rewrite forallb_forall in Hs.
    apply Hs in H1. apply Hs in H2.
    apply Nat.eqb_eq in H1. apply Nat.eqb_eq in H2. congruence.
  - eexists; split; reflexivity.
Qed.

Lemma load_matrix_on_rows (content : string) (rows : list (list string)) :
  Csv.reader content = Ok rows ->
  load_matrix content =
  (p <- parse_rows rows ;;
   m <- Np.array (map snd (snd p)) ;;
   Ok (MkMatrix (fst p) (map fst (snd p)) m)).
Proof. intros H. unfold load_matrix. rewrite H. reflexivity. Qed.

Lemma parse_rows_raises_class (rows : list (list string)) (e : exc) :
  parse_rows rows = Raise e ->
  exc_cls e = IndexError \/ exc_cls e = ValueError.
Proof.
  unfold parse_rows. destruct rows as [| header data]; simpl.
  - intros H. injection H as <-. left; reflexivity.
  - destruct (traverse parse_row data) as [parsed |] eqn:Ht; simpl;
      [discriminate |].
    intros H. injection H as ->.
    revert Ht. induction data as [| row data IH]; simpl; [discriminate |].
    destruct (parse_row row) eqn:Hrow; simpl.
    + destruct (traverse parse_row data); simpl; [discriminate |].
      intros H. injection H as ->. apply IH; reflexivity.
    + intros H. injection H as ->.
      apply parse_row_raises_class in Hrow. tauto.
Qed.

(** Every failure of the loader is a parse error of the specification. *)
Lemma load_matrix_raises_parse_error (content : string) (e : exc) :
  load_matrix content = Raise e -> kind_of e = ParseError.
Proof.
  unfold load_matrix.
  destruct (Csv.reader content) as [rows |] eqn:Hr; simpl.
  - destruct (parse_rows rows) as [p |] eqn:Hp; simpl.
    + destruct (Np.array (map snd (snd p))) eqn:Ha; simpl; [discriminate |].
      intros H. injection H as <-.
      apply array_raises_class in Ha. unfold kind_of. rewrite Ha. reflexivity.
    + intros H. injection H as <-.
      apply parse_rows_raises_class in Hp. unfold kind_of.
      destruct Hp as [-> | ->]; reflexivity.
  - intros H. injection H as <-.
    apply reader_class in Hr. unfold kind_of. rewrite Hr. reflexivity.
Qed.

Lemma load_matrix_Ok_inv (content : string) (cm : ConfusionMatrix) :
  load_matrix content = Ok cm ->
  exists header data parsed,
    Csv.reader content = Ok (header :: data) /\
    traverse parse_row data = Ok parsed /\
    Np.array (map snd parsed) = Ok (matrix cm) /\
    class_labels cm = slice_from_1 header /\
    row_labels cm = map fst parsed.
Proof.
  unfold load_matrix. intros H.
  apply bind_Ok_inv in H as (rows & Hrows & H).
  apply bind_Ok_inv in H as (p & Hp & H).
  apply bind_Ok_inv in H as (m & Hm & H).
  injection H as <-.
  unfold parse_rows in Hp.
  apply bind_Ok_inv in Hp as (header & Hh & Hp).
  apply bind_Ok_inv in Hp as (parsed & Hparsed & Hp).
  injection Hp as <-.
  destruct rows as [| header' data]; simpl in Hh; [discriminate |].
  injection Hh as ->.
  exists header, data, parsed. simpl in *. auto.
Qed.

(** Rows that carry a label and numeric values are all parsed, each to its
    first cell and as many values as it has further cells. *)
Lemma traverse_parse_row_Ok (data : list (list string)) :
  labelled_numeric data ->
  exists parsed,
    traverse parse_row data = Ok parsed /\
    map fst parsed = map (hd EmptyString) data /\
    map (fun p => length (snd p)) parsed
    = map (fun row => length (slice_from_1 row)) data.
Proof.
  induction 1 as [| row data (Hne & Hnum) _ (parsed & Ht & Hl & Hv)].
  - exists []. auto.
  - destruct (parse_row_Ok row Hne Hnum) as (vs & Hrow & _ & Hlen).
    exists ((hd EmptyString row, vs) :: parsed). simpl.
    rewrite Hrow; simpl. rewrite Ht; simpl.
    rewrite Hl, Hv, Hlen. auto.
Qed.

Lemma traverse_parse_row_empty_row (data : list (list string)) :
  In [] data -> raises (traverse parse_row data).
Proof.
  intros Hin.
  destruct (traverse_raises parse_row data [] Hin) as (y & e & _ & _ & Ht).
  - eexists; reflexivity.
  - eexists; eassumption.
Qed.

Lemma load_matrix_raises_on_rows (content : string) (header : list string)
  (data : list (list string)) :
  Csv.reader content = Ok (header :: data) ->
  raises (traverse parse_row data) ->
  raises (load_matrix content).
Proof.
  intros Hr (e & He). exists e.
  rewrite (load_matrix_on_rows _ _ Hr). unfold parse_rows; simpl.
  rewrite He. reflexivity.
Qed.

Lemma raises_parse_error (content : string) :
  raises (load_matrix content) ->
  exists e, load_matrix content = Raise e /\ kind_of e = ParseError.
Proof.
  intros (e & He). exists e. split; [assumption |].
  eapply load_matrix_raises_parse_error; eassumption.
Qed.

Lemma traverse_Raise_inv {A B : Type} (f : A -> result B) :
  forall l e, traverse f l = Raise e -> exists x, In x l /\ f x = Raise e.
Proof.
  induction l as [| a l IH]; simpl; intros e H; [discriminate |].
  destruct (f a) as [b |] eqn:Ha; simpl in H.
  - destruct (traverse f l) eqn:Ht; simpl in H; [discriminate |].
    injection H as ->. destruct (IH e eq_refl) as (x & Hx & Hfx). eauto.
  - injection H as ->. eauto.
Qed.

(** ** The loader: failures (C1, C10) *)

(** C1, as amended.  The loader fails with a parse error when some value cell
    of a data row is not numeric, and when the file has no row at all.  A
    file with one row is loaded: its cells after the first are the column
    labels, and there is no row label and no value. *)
Theorem loader_fails_on_bad_cell_or_no_rows :
  (forall content rows,
      Csv.reader content = Ok rows ->
      rows = [] \/
      (exists row cell, In row (slice_from_1 rows) /\
                        In cell (slice_from_1 row) /\
                        is_numeric cell = false) ->
      exists e, load_matrix content = Raise e /\ kind_of e = ParseError) /\
  (forall content header,
      Csv.reader content = Ok [header] ->
      load_matrix content
      = Ok (MkMatrix (slice_from_1 header) [] (Array [0] []))).
Proof.
  split.
  - intros content rows Hr Hbad. apply raises_parse_error.
    destruct Hbad as [-> | (row & cell & Hrow & Hcell & Hnum)].
    + rewrite (load_matrix_on_rows _ _ Hr). eexists; reflexivity.
    + destruct rows as [| header data]; simpl in Hrow; [contradiction |].
      eapply load_matrix_raises_on_rows; [eassumption |].
      destruct (traverse_raises parse_row data row Hrow)
        as (y & e & _ & _ & Ht).
      * eapply parse_row_bad_cell; eassumption.
      * eexists; eassumption.
  - intros content header Hr.
    rewrite (load_matrix_on_rows _ _ Hr). reflexivity.
Qed.

Lemma loader_fails_on_bad_cell_or_no_rows_witness :
  Csv.reader bad_cell_csv = Ok [["h"; "a"]; ["X"; "zz"]] /\
  (exists e, load_matrix bad_cell_csv = Raise e /\ kind_of e = ParseError) /\
  (exists e, load_matrix "" = Raise e /\ kind_of e = ParseError) /\
  load_matrix "h,a" = Ok (MkMatrix ["a"] [] (Array [0] [])).
Proof.
  destruct loader_fails_on_bad_cell_or_no_rows as (Hfail & Hone).
  split; [reflexivity |]. split; [| split].
  - apply (Hfail bad_cell_csv [["h"; "a"]; ["X"; "zz"]]); [reflexivity |].
    right. exists ["X"; "zz"], "zz". simpl. auto.
  - apply (Hfail "" []); [reflexivity | left; reflexivity].
  - apply (Hone "h,a" ["h"; "a"]). reflexivity.
Defined.

(** C1, as stated, fails: a file with a header row and nothing else has
    fewer than two rows, and the loader returns a table for it. *)
Lemma header_only_file_loads :
  ~ (forall content rows,
        Csv.reader content = Ok rows ->
        length rows < 2 ->
        raises (load_matrix content)).
Proof.
  intros H.
  destruct (H "a,b,c" [["a"; "b"; "c"]]) as (e & He).
  - reflexivity.
  - simpl; lia.
  - vm_compute in He. discriminate He.
Qed.

(** C10.  The first row is indexed without a check and so is the first cell
    of each data row: an empty file ends in [IndexError]; so does a file
    with an empty data row, when the rows before it are parsed (otherwise
    one of those rows has raised before); in no case is a table returned.
    With at least one row, and a cell in each data row, no [IndexError] is
    raised. *)
Theorem header_access_precondition :
  raises_cls (load_matrix "") IndexError /\
  (forall content header data,
      Csv.reader content = Ok (header :: data) ->
      In [] data ->
      raises (load_matrix content)) /\
  (forall content header pre post,
      Csv.reader content = Ok (header :: pre ++ [] :: post) ->
      Forall (fun row => exists p, parse_row row = Ok p) pre ->
      raises_cls (load_matrix content) IndexError) /\
  (forall content header data,
      Csv.reader content = Ok (header :: data) ->
      Forall (fun row => row <> []) data ->
      ~ raises_cls (load_matrix content) IndexError).
Proof.
  split; [| split; [| split]].
  - eexists; split; reflexivity.
  - intros content header data Hr Hin.
    eapply load_matrix_raises_on_rows; [eassumption |].
    apply traverse_parse_row_empty_row; assumption.
  - intros content header pre post Hr Hpre.
    destruct parse_row_empty as (e & He & Hcls).
    exists e. split; [| assumption].
    rewrite (load_matrix_on_rows _ _ Hr). unfold parse_rows; simpl.
    rewrite (traverse_first_failure parse_row pre [] post e Hpre He).
    reflexivity.
  - intros content header data Hr Hne (e & He & Hcls).
    rewrite (load_matrix_on_rows _ _ Hr) in He. unfold parse_rows in He.
    simpl in He.
    destruct (traverse parse_row data) as [parsed |] eqn:Ht; simpl in He.
    + destruct (Np.array (map snd parsed)) eqn:Ha; simpl in He;
        [discriminate |].
      injection He as ->. apply array_raises_class in Ha. congruence.
    + injection He as ->.
      apply traverse_Raise_inv in Ht as (row & Hin & Hrow).
      rewrite Forall_forall in Hne.
      apply parse_row_raises_class in Hrow as [(Hnil & _) | (_ & Hv)].
      * exact (Hne row Hin Hnil).
      * congruence.
Qed.

Lemma header_access_precondition_witness :
  Csv.reader blank_line_csv = Ok [["h"; "a"]; []; ["X"; "1"]] /\
  raises (load_matrix blank_line_csv) /\
  raises_cls (load_matrix blank_line_csv) IndexError /\
  ~ raises_cls (load_matrix example_csv) IndexError.
Proof.
  destruct header_access_precondition as (_ & Hany & Hfirst & Hsafe).
  split; [reflexivity |]. split; [| split].
  - apply (Hany blank_line_csv ["h"; "a"] [[]; ["X"; "1"]]); [reflexivity |].
    simpl; auto.
  - apply (Hfirst blank_line_csv ["h"; "a"] [] [["X"; "1"]]); [reflexivity |].
    constructor.
  - apply (Hsafe example_csv [""; "A"; "B"] [["X"; "2"; "3"]; ["Y"; "4"; "5"]]);
      [reflexivity |].
    repeat constructor; discriminate.
Defined.

(** ** The loader: what it returns (C2, C3, C9) *)

(** C2.  When the loader returns a table, the column labels are the cells of
    the first row after its first cell, the row labels are the first cells
    of the following rows, in order, and each row of the array holds the
    floats read from the remaining cells of its row.  On the example of the
    specification the loader returns labels A, B, then X, Y, and the array
    2 3 / 4 5. *)
Theorem load_matrix_contract :
  (forall content cm,
      load_matrix content = Ok cm ->
      exists header data,
        Csv.reader content = Ok (header :: data) /\
        class_labels cm = slice_from_1 header /\
        Forall2 (fun row label => index_0 row = Ok label)
                data (row_labels cm) /\
        Forall2 (Forall2 (fun cell value => float cell = Ok value))
                (map (@slice_from_1 string) data) (Np.data (matrix cm))) /\
  load_matrix example_csv =
  Ok (MkMatrix ["A"; "B"] ["X"; "Y"]
        (Array [2; 2] [[float_of_nat 2; float_of_nat 3];
                       [float_of_nat 4; float_of_nat 5]])).
Proof.
  split; [| reflexivity].
  intros content cm H.
  apply load_matrix_Ok_inv in H
    as (header & data & parsed & Hr & Ht & Ha & Hc & Hl).
  exists header, data. split; [assumption |]. split; [assumption |].
  apply array_data in Ha. rewrite Hl, Ha. clear Hr Hc Hl Ha.
  apply traverse_Ok_Forall2 in Ht.
  induction Ht as [| row [label vs] data parsed Hrow _ (IHl & IHv)]; simpl.
  - split; constructor.
  - apply parse_row_Ok_inv in Hrow as (cells & -> & Hcells).
    split; constructor; auto.
    simpl. apply traverse_Ok_Forall2. assumption.
Qed.

Lemma load_matrix_contract_witness :
  exists header data,
    Csv.reader example_csv = Ok (header :: data) /\
    ["A"; "B"] = slice_from_1 header /\
    Forall2 (fun row label => index_0 row = Ok label) data ["X"; "Y"] /\
    Forall2 (Forall2 (fun cell value => float cell = Ok value))
            (map (@slice_from_1 string) data)
            [[float_of_nat 2; float_of_nat 3];
             [float_of_nat 4; float_of_nat 5]].
Proof.
  exact (proj1 load_matrix_contract example_csv _
           (proj2 load_matrix_contract)).
Defined.

(** C3.  A well-formed input with [R] data rows and [C] value columns loads
    to a table with [R] row labels, [C] column labels and an [R] by [C]
    array. *)
Theorem load_matrix_dimensions :
  forall content rows R C,
    Csv.reader content = Ok rows ->
    well_formed rows R C = true ->
    exists cm,
      load_matrix content = Ok cm /\
      length (row_labels cm) = R /\
      length (class_labels cm) = C /\
      shape (matrix cm) = [R; C] /\
      length (Np.data (matrix cm)) = R /\
      Forall (fun r => length r = C) (Np.data (matrix cm)).
Proof.
  intros content rows R C Hr Hwf.
  destruct rows as [| header data]; [discriminate |].
  unfold well_formed in Hwf.
  apply andb_prop in Hwf as (Hwf & Hrows).
  apply andb_prop in Hwf as (Hwf & Hh).
  apply andb_prop in Hwf as (HR & Hpos).
  apply Nat.eqb_eq in HR, Hh. apply Nat.leb_le in Hpos.
  rewrite forallb_forall in Hrows.
  assert (Hln : labelled_numeric data).
  { apply Forall_forall. intros row Hin.
    apply Hrows in Hin. apply andb_prop in Hin as (Hlen & Hnum).
    apply Nat.eqb_eq in Hlen. split; [| assumption].
    destruct row; [discriminate | discriminate]. }
  destruct (traverse_parse_row_Ok data Hln) as (parsed & Ht & Hl & Hv).
  assert (Hplen : length parsed = R).
  { rewrite <- HR, <- (length_map fst parsed), Hl. apply length_map. }
  assert (Hcols : Forall (fun r => length r = C) (map snd parsed)).
  { apply Forall_forall. intros vs Hin.
    apply in_map_iff in Hin as (p & <- & Hp).
    assert (Hin : In (length (snd p))
                     (map (fun row => length (slice_from_1 row)) data)).
    { rewrite <- Hv. apply (in_map (fun p => length (snd p))). assumption. }
    apply in_map_iff in Hin as (row & Hlen & Hrow).
    apply Hrows in Hrow. apply andb_prop in Hrow as (Hrl & _).
    apply Nat.eqb_eq in Hrl. rewrite <- Hlen.
    destruct row; simpl in *; [discriminate | lia]. }
  assert (Hne : map snd parsed <> []).
  { destruct parsed; simpl in *; [lia | discriminate]. }
  pose proof (array_rectangular _ C Hne Hcols) as Ha.
  rewrite length_map, Hplen in Ha.
  exists (MkMatrix (slice_from_1 header) (map fst parsed)
                   (Array [R; C] (map snd parsed))).
  split; [| simpl; repeat split].
  - rewrite (load_matrix_on_rows _ _ Hr). unfold parse_rows; simpl.
    rewrite Ht; simpl. rewrite Ha. reflexivity.
  - rewrite length_map. assumption.
  - destruct header; simpl in *; [discriminate | lia].
  - rewrite length_map. assumption.
  - assumption.
Qed.

Lemma load_matrix_dimensions_witness :
  well_formed [[""; "A"; "B"]; ["X"; "2"; "3"]; ["Y"; "4"; "5"]] 2 2 = true /\
  exists cm,
    load_matrix example_csv = Ok cm /\
    length (row_labels cm) = 2 /\
    length (class_labels cm) = 2 /\
    shape (matrix cm) = [2; 2] /\
    length (Np.data (matrix cm)) = 2 /\
    Forall (fun r => length r = 2) (Np.data (matrix cm)).
Proof.
  split; [reflexivity |].
  apply (load_matrix_dimensions example_csv
           [[""; "A"; "B"]; ["X"; "2"; "3"]; ["Y"; "4"; "5"]] 2 2);
    reflexivity.
Defined.

(** C9, as amended.  The loop over the data rows checks no shape: when every
    data row has a label and numeric values, the rows are parsed whatever
    their lengths, and rows with different numbers of values give value
    lists of different lengths.  The conversion to an array then refuses
    them, and the loader ends in [ValueError]. *)
Theorem ragged_rows_parsed_then_refused :
  forall content header data,
    Csv.reader content = Ok (header :: data) ->
    labelled_numeric data ->
    ragged data ->
    (exists parsed v1 v2,
        parse_rows (header :: data) = Ok (slice_from_1 header, parsed) /\
        In v1 (map snd parsed) /\ In v2 (map snd parsed) /\
        length v1 <> length v2) /\
    raises_cls (load_matrix content) ValueError.
Proof.
  intros content header data Hr Hln (r1 & r2 & H1 & H2 & Hne).
  destruct (traverse_parse_row_Ok data Hln) as (parsed & Ht & _ & Hv).
  assert (Hfind : forall row, In row data ->
            exists vs, In vs (map snd parsed) /\
                       length vs = length (slice_from_1 row)).
  { intros row Hin.
    assert (Hl : In (length (slice_from_1 row))
                    (map (fun p => length (snd p)) parsed)).
    { rewrite Hv.
      apply (in_map (fun row => length (slice_from_1 row))). assumption. }
    apply in_map_iff in Hl as (p & Hlen & Hp).
    exists (snd p). split; [apply in_map; assumption | assumption]. }
  destruct (Hfind r1 H1) as (v1 & Hv1 & Hl1).
  destruct (Hfind r2 H2) as (v2 & Hv2 & Hl2).
  assert (Hdiff : length v1 <> length v2) by congruence.
  split.
  - exists parsed, v1, v2. unfold parse_rows; simpl. rewrite Ht. auto.
  - destruct (array_ragged _ v1 v2 Hv1 Hv2 Hdiff) as (e & He & Hcls).
    exists e. split; [| assumption].
    rewrite (load_matrix_on_rows _ _ Hr). unfold parse_rows; simpl.
    rewrite Ht; simpl. rewrite He. reflexivity.
Qed.

Lemma ragged_csv_rows :
  Csv.reader ragged_csv = Ok [["h"; "a"; "b"]; ["X"; "1"; "2"]; ["Y"; "3"]] /\
  labelled_numeric [["X"; "1"; "2"]; ["Y"; "3"]] /\
  ragged [["X"; "1"; "2"]; ["Y"; "3"]].
Proof.
  split; [reflexivity |]. split.
  - repeat constructor; discriminate.
  - exists ["X"; "1"; "2"], ["Y"; "3"]. simpl. intuition discriminate.
Defined.

Lemma ragged_rows_parsed_then_refused_witness :
  (exists parsed v1 v2,
      parse_rows [["h"; "a"; "b"]; ["X"; "1"; "2"]; ["Y"; "3"]]
      = Ok (["a"; "b"], parsed) /\
      In v1 (map snd parsed) /\ In v2 (map snd parsed) /\
      length v1 <> length v2) /\
  raises_cls (load_matrix ragged_csv) ValueError.
Proof.
  destruct ragged_csv_rows as (Hr & Hln & Hrag).
  exact (ragged_rows_parsed_then_refused ragged_csv _ _ Hr Hln Hrag).
Defined.

(** C9, as stated, fails: rows of two and of one numeric values are not
    loaded. *)
Lemma ragged_rows_not_loaded :
  ~ (forall content header data,
        Csv.reader content = Ok (header :: data) ->
        labelled_numeric data ->
        ragged data ->
        exists cm, load_matrix content = Ok cm).
Proof.
  intros H. destruct ragged_csv_rows as (Hr & Hln & Hrag).
  destruct (H ragged_csv _ _ Hr Hln Hrag) as (cm & Hcm).
  vm_compute in Hcm. discriminate Hcm.
Qed.

(** ** The directory scan (C8) *)

Lemma matches_star (p : list tok) (s : string) :
  matches (Star :: p) s =
  matches p s || match s with
                 | EmptyString => false
                 | String _ r => matches (Star :: p) r
                 end.
Proof. destruct s; reflexivity. Qed.

Lemma matches_literals (l : list ascii) :
  forall s, matches (map Lit l) s = true <-> s = of_list l.
Proof.
  induction l as [| c l IH]; intros [| d r]; simpl; split;
    try discriminate; try reflexivity.
  - intros H. apply andb_prop in H as (Hc & Hr).
    apply Ascii.eqb_eq in Hc. apply IH in Hr. congruence.
  - intros H. injection H as -> ->.
    rewrite Ascii.eqb_refl. simpl. apply IH. reflexivity.
Qed.

Lemma matches_star_literals (l : list ascii) :
  forall s, matches (Star :: map Lit l) s = true <-> ends_with (of_list l) s.
Proof.
  unfold ends_with.
  induction s as [| c r IH]; rewrite matches_star, orb_true_iff.
  - rewrite matches_literals. split.
    + intros [H | H]; [| discriminate]. exists EmptyString. exact H.
    + intros ([| d p] & H); [left; exact H | discriminate].
  - rewrite matches_literals, IH. split.
    + intros [H | (p & ->)].
      * exists EmptyString. exact H.
      * exists (String c p). reflexivity.
    + intros ([| d p] & H).
      * left. exact H.
      * right. exists p. simpl in H. congruence.
Qed.

Lemma fnmatch_scan_pattern (name : string) :
  fnmatch name scan_pattern = true <-> ends_with suffix name.
Proof.
  apply (matches_star_literals (to_list suffix) name).
Qed.

Lemma reaches_Dir_inv (es : list (string * node)) (comps : list string)
  (n : node) :
  reaches (Dir es) comps n -> comps <> [] ->
  exists name child rel,
    comps = name :: rel /\ In (name, child) es /\ reaches child rel n.
Proof.
  intros H Hne. inversion H; subst; [congruence |]. eauto 6.
Qed.

Lemma last_cons_nonempty (name : string) (rel : list string) :
  rel <> [] -> last (name :: rel) EmptyString = last rel EmptyString.
Proof. destruct rel; [congruence | reflexivity]. Qed.

(** The scan returns the paths of the entries below the directory, at any
    depth, whose name matches the pattern. *)
Lemma rglob_from_spec (pat : string) :
  forall t comps,
    In comps (rglob_from pat t) <->
    (exists n, reaches t comps n) /\ comps <> [] /\
    fnmatch (last comps EmptyString) pat = true.
Proof.
  induction t as [content | es IH] using node_induction; intros comps.
  - simpl. split; [contradiction |].
    intros ((n & H) & Hne & _). inversion H; subst. congruence.
  - simpl. rewrite in_app_iff, in_map_iff, in_flat_map. split.
    + intros [((name, child) & <- & Hin) | ((name, child) & Hin & Hrel)].
      * apply filter_In in Hin as (Hin & Hm). simpl in *.
        split; [| split; [discriminate | assumption]].
        exists child. econstructor; [eassumption | constructor].
      * apply in_map_iff in Hrel as (rel & <- & Hrel).
        rewrite Forall_forall in IH.
        apply (IH _ Hin) in Hrel as ((n & Hn) & Hne & Hm).
        split; [| split; [discriminate |]].
        -- exists n. econstructor; eassumption.
        -- rewrite last_cons_nonempty; assumption.
    + intros ((n & Hn) & Hne & Hm).
      apply reaches_Dir_inv in Hn as (name & child & rel & -> & Hin & Hrel);
        [| assumption].
      destruct rel as [| r rel].
      * left. exists (name, child). split; [reflexivity |].
        apply filter_In. auto.
      * right. exists (name, child). split; [assumption |].
        apply in_map. rewrite Forall_forall in IH.
        apply (IH _ Hin). split; [eauto |]. split; [discriminate |].
        rewrite last_cons_nonempty in Hm; [assumption | discriminate].
Qed.

Lemma joinpath_injective (p : PurePath) (a b : list string) :
  joinpath p a = joinpath p b -> a = b.
Proof.
  unfold joinpath. intros H. injection H as H.
  eapply app_inv_head; eassumption.
Qed.

(** C8.  The pattern of the scan selects a name exactly when the name ends
    with [confusion_matrix.csv]; a file anywhere below the scanned
    directory is among the results exactly when its name does. *)
Theorem scanner_selects_by_suffix :
  (forall name, fnmatch name scan_pattern = true <-> ends_with suffix name) /\
  (forall root directory es comps content,
      stat root (str (Path directory)) = Found (Dir es) ->
      reaches (Dir es) comps (File content) ->
      (In (joinpath (Path directory) comps)
          (rglob root (Path directory) scan_pattern)
       <-> ends_with suffix (last comps EmptyString))) /\
  fnmatch "my_confusion_matrix.csv" scan_pattern = true /\
  fnmatch "confusion_matrix.txt" scan_pattern = false.
Proof.
  split; [exact fnmatch_scan_pattern |].
  split; [| split; reflexivity].
  intros root directory es comps content Hstat Hreach.
  unfold rglob. rewrite Hstat. rewrite in_map_iff.
  rewrite <- fnmatch_scan_pattern. split.
  - intros (rel & Heq & Hin). apply joinpath_injective in Heq as ->.
    apply rglob_from_spec in Hin. tauto.
  - intros Hm. exists comps. split; [reflexivity |].
    apply rglob_from_spec. split; [eauto |]. split; [| assumption].
    intros ->. inversion Hreach.
Qed.

Lemma scanner_selects_by_suffix_witness :
  In (joinpath (Path "results/") ["j48"; "my_confusion_matrix.csv"])
     (rglob sample_tree (Path "results/") scan_pattern).
Proof.
  destruct scanner_selects_by_suffix as (_ & Hscan & _).
  eapply (Hscan sample_tree "results/" _
            ["j48"; "my_confusion_matrix.csv"] example_csv).
  - reflexivity.
  - econstructor; [right; right; right; left; reflexivity |].
    econstructor; [left; reflexivity | constructor].
  - exists "my_". reflexivity.
Defined.

(** ** The name of the image (C4, C7) *)

(** C4.  The default name replaces every [.csv] of the path, not its
    extension: a directory called [runs.csv] becomes [runs.png] in the name
    of the image, and a path without [.csv] is left as it is. *)
Theorem default_output_replaces_every_csv :
  default_output "runs.csv/confusion_matrix.csv"
  = "runs.png/confusion_matrix.png" /\
  default_output "runs.csv/confusion_matrix.csv"
  <> "runs.csv/confusion_matrix.png" /\
  default_output "matrix.CSV" = "matrix.CSV".
Proof. split; [reflexivity | split; [discriminate | reflexivity]]. Qed.

Lemma isdir_not_isfile (t : node) (path : string) :
  isdir t path = true -> isfile t path = false.
Proof.
  unfold isdir, isfile. destruct (stat t path) as [[c | es] | |];
    try discriminate; reflexivity.
Qed.

Lemma plot_confusion_matrix_Ok (env : Env) (csv_file : string)
  (output_file : option string) (cm : ConfusionMatrix) :
  loads env csv_file cm ->
  heatmap_raises env cm = None ->
  savefig_raises env (output_path csv_file output_file) (figure_of cm) = None ->
  plot_confusion_matrix env csv_file output_file =
  ([Savefig (output_path csv_file output_file) (figure_of cm);
    Print ("✓ Saved confusion matrix image: "
             ++ output_path csv_file output_file)%string], Ok tt).
Proof.
  unfold loads, plot_confusion_matrix. intros Hl Hh Hs.
  rewrite Hl, Hh, Hs. reflexivity.
Qed.

(** Whatever happens, the only path under which the function saves is the
    one it was given, or the default one when it was given none. *)
Lemma plot_confusion_matrix_saves (env : Env) (csv_file : string)
  (output_file : option string) (p : string) (fig : Figure) :
  In (Savefig p fig) (fst (plot_confusion_matrix env csv_file output_file)) ->
  p = output_path csv_file output_file.
Proof.
  unfold plot_confusion_matrix.
  destruct (content <- open_read (root env) csv_file ;; load_matrix content)
    as [cm |]; [| contradiction].
  destruct (heatmap_raises env cm); [contradiction |].
  destruct (savefig_raises env _ _); [contradiction |].
  simpl. intros [H | [H | []]]; [| discriminate].
  injection H as <- _. reflexivity.
Qed.

(** C7.  In single-file mode with an output path on the command line, no
    image is saved under any other path; and when the file loads and the
    plotting calls succeed, the run saves one image, under that path, and
    ends with status 0. *)
Theorem explicit_output_path_used :
  forall env prog path out rest,
    isfile (root env) path = true ->
    (forall p fig,
        In (Savefig p fig) (fst (main env (prog :: path :: out :: rest))) ->
        p = out) /\
    (forall cm,
        loads env path cm ->
        heatmap_raises env cm = None ->
        savefig_raises env out (figure_of cm) = None ->
        main env (prog :: path :: out :: rest) =
        ([Savefig out (figure_of cm);
          Print ("✓ Saved confusion matrix image: " ++ out)%string], 0)).
Proof.
  intros env prog path out rest Hfile. unfold main. rewrite Hfile. split.
  - intros p fig Hin.
    apply (plot_confusion_matrix_saves env path (Some out) p fig).
    destruct (plot_confusion_matrix env path (Some out)) as (evs & [u | e]);
      exact Hin.
  - intros cm Hl Hh Hs.
    rewrite (plot_confusion_matrix_Ok env path (Some out) cm Hl Hh Hs).
    reflexivity.
Qed.

Lemma explicit_output_path_used_witness :
  isfile sample_tree "cm.csv" = true /\
  saved_paths (fst (main sample_env ["prog"; "cm.csv"; "figures/heat.png"]))
  = ["figures/heat.png"] /\
  default_output "cm.csv" = "cm.png".
Proof.
  split; [reflexivity |].
  destruct (explicit_output_path_used sample_env "prog" "cm.csv"
              "figures/heat.png" [] eq_refl) as (_ & Hrun).
  split; [| reflexivity].
  destruct (load_matrix example_csv) as [cm |] eqn:Hcm; [| discriminate Hcm].
  rewrite (Hrun cm); [reflexivity | exact Hcm | reflexivity | reflexivity].
Defined.

(** ** The batch run (C5, C6) *)

Lemma saved_paths_app (a b : list event) :
  saved_paths (a ++ b) = saved_paths a ++ saved_paths b.
Proof. apply flat_map_app. Qed.

Lemma error_lines_app (a b : list event) :
  error_lines (a ++ b) = error_lines a ++ error_lines b.
Proof. apply flat_map_app. Qed.

Lemma process_one_processed (env : Env) (f : PurePath) :
  processed env f ->
  saved_paths (process_one env f) = [default_output (str f)] /\
  error_lines (process_one env f) = [].
Proof.
  intros (cm & Hl & Hh & Hs). unfold process_one.
  rewrite (plot_confusion_matrix_Ok env (str f) None cm Hl Hh Hs).
  split; reflexivity.
Qed.

Lemma process_one_malformed (env : Env) (f : PurePath) (e : exc) :
  malformed env (str f) e ->
  process_one env f = [Print (error_line f e)].
Proof.
  intros (content & Ho & Hl). unfold process_one, plot_confusion_matrix.
  rewrite Ho. simpl. rewrite Hl. reflexivity.
Qed.

Lemma flat_map_processed (env : Env) (files : list PurePath) :
  (forall f, In f files -> processed env f) ->
  saved_paths (flat_map (process_one env) files)
  = map (fun f => default_output (str f)) files /\
  error_lines (flat_map (process_one env) files) = [].
Proof.
  induction files as [| f files IH]; intros H; simpl; [auto |].
  rewrite saved_paths_app, error_lines_app.
  destruct (process_one_processed env f (H f (or_introl eq_refl))) as (-> & ->).
  destruct IH as (-> & ->); [intros g Hg; apply H; right; exact Hg |].
  auto.
Qed.

Lemma plot_all_nonempty (env : Env) (directory : string)
  (files : list PurePath) :
  rglob (root env) (Path directory) scan_pattern = files ->
  files <> [] ->
  plot_all_confusion_matrices env directory =
  Print ("Found " ++ decimal (length files) ++ " confusion matrix file(s)")%string
  :: flat_map (process_one env) files.
Proof.
  intros Hglob Hne. unfold plot_all_confusion_matrices. rewrite Hglob.
  destruct files; [congruence | reflexivity].
Qed.

Lemma saved_paths_found (n : string) (t : list event) :
  saved_paths (Print ("Found " ++ n) :: t) = saved_paths t.
Proof. reflexivity. Qed.

Lemma error_lines_found (n : string) (t : list event) :
  error_lines (Print ("Found " ++ n) :: t) = error_lines t.
Proof. reflexivity. Qed.

Lemma prefix_empty (x : string) : String.prefix "" x = true.
Proof. destruct x; reflexivity. Qed.

Lemma error_lines_error_line (f : PurePath) (e : exc) :
  error_lines [Print (error_line f e)] = [error_line f e].
Proof.
  unfold error_lines, error_line. simpl. rewrite prefix_empty. reflexivity.
Qed.

(** C5.  In a batch run where one of the matching files is malformed and the
    others are processed, the malformed file does not stop the run: an
    image is saved for each of the others, before and after it, and one
    error is reported, which names the malformed file. *)
Theorem batch_isolates_failure :
  forall env directory pre bad post e,
    rglob (root env) (Path directory) scan_pattern = pre ++ bad :: post ->
    malformed env (str bad) e ->
    (forall f, In f (pre ++ post) -> processed env f) ->
    saved_paths (plot_all_confusion_matrices env directory)
    = map (fun f => default_output (str f)) (pre ++ post) /\
    error_lines (plot_all_confusion_matrices env directory)
    = [("✗ Error processing " ++ str bad ++ ": " ++ exc_str e)%string].
Proof.
  intros env directory pre bad post e Hglob Hbad Hothers.
  rewrite (plot_all_nonempty env directory _ Hglob)
    by (destruct pre; discriminate).
  rewrite saved_paths_found, error_lines_found.
  rewrite flat_map_app. simpl flat_map.
  rewrite (process_one_malformed env bad e Hbad).
  rewrite !saved_paths_app, !error_lines_app.
  destruct (flat_map_processed env pre) as (-> & ->).
  { intros f Hf. apply Hothers. apply in_or_app. left; exact Hf. }
  destruct (flat_map_processed env post) as (-> & ->).
  { intros f Hf. apply Hothers. apply in_or_app. right; exact Hf. }
  split.
  - rewrite map_app. reflexivity.
  - rewrite error_lines_error_line. reflexivity.
Qed.

Lemma sample_scan :
  rglob sample_tree (Path "results") scan_pattern =
  [MkPath "" ["results"; "confusion_matrix.csv"]]
  ++ MkPath "" ["results"; "bad_confusion_matrix.csv"]
  :: [MkPath "" ["results"; "j48"; "my_confusion_matrix.csv"]].
Proof. reflexivity. Defined.

Lemma batch_isolates_failure_witness :
  saved_paths (plot_all_confusion_matrices sample_env "results")
  = ["results/confusion_matrix.png"; "results/j48/my_confusion_matrix.png"] /\
  error_lines (plot_all_confusion_matrices sample_env "results")
  = ["✗ Error processing results/bad_confusion_matrix.csv: could not convert string to float: 'zz'"%string].
Proof.
  apply (batch_isolates_failure sample_env "results" _ _ _
           (Exc ValueError "could not convert string to float: 'zz'")
           sample_scan).
  - eexists. split; reflexivity.
  - intros f [<- | [<- | []]]; eexists; (split; [| split]); reflexivity.
Defined.

(** C6.  In batch mode over a directory without a matching file, the run
    prints that no file was found and nothing else, saves no image, and ends
    with status 0. *)
Theorem batch_without_matches :
  forall env prog directory rest,
    isdir (root env) directory = true ->
    rglob (root env) (Path directory) scan_pattern = [] ->
    main env (prog :: directory :: rest) =
    ([Print ("No confusion matrix CSV files found in " ++ directory)%string], 0)
    /\ saved_paths (fst (main env (prog :: directory :: rest))) = [].
Proof.
  intros env prog directory rest Hdir Hglob.
  assert (Hmain : main env (prog :: directory :: rest) =
    ([Print ("No confusion matrix CSV files found in " ++ directory)%string], 0)).
  { unfold main. rewrite (isdir_not_isfile _ _ Hdir), Hdir.
    unfold plot_all_confusion_matrices. rewrite Hglob. reflexivity. }
  split; [exact Hmain | rewrite Hmain; reflexivity].
Qed.

Lemma batch_without_matches_witness :
  isdir sample_tree "empty" = true /\
  main sample_env ["prog"; "empty"] =
  ([Print "No confusion matrix CSV files found in empty"], 0) /\
  saved_paths (fst (main sample_env ["prog"; "empty"])) = [].
Proof.
  split; [reflexivity |].
  apply (batch_without_matches sample_env "prog" "empty" []); reflexivity.
Defined.

(** ** The default name in a batch run *)

Lemma string_app_assoc (a b c : string) :
  ((a ++ b) ++ c = a ++ (b ++ c))%string.
Proof. induction a as [| x a IH]; simpl; [reflexivity | rewrite IH; reflexivity]. Qed.

Lemma string_length_app (a b : string) :
  String.length (a ++ b) = String.length a + String.length b.
Proof. induction a as [| x a IH]; simpl; [reflexivity | rewrite IH; reflexivity]. Qed.

Lemma string_app_inj (a b s t : string) :
  String.length a = String.length b ->
  (a ++ s = b ++ t)%string -> s = t.
Proof.
  revert b. induction a as [| x a IH]; intros [| y b]; simpl;
    try discriminate; intros Hlen H.
  - exact H.
  - injection H as _ H. injection Hlen as Hlen. eapply IH; eassumption.
Qed.

Lemma ends_with_trans (a b c : string) :
  ends_with a b -> ends_with b c -> ends_with a c.
Proof.
  intros (p & ->) (q & ->). exists (q ++ p)%string.
  symmetry. apply string_app_assoc.
Qed.

(** Two texts that end differently, on endings of one length, differ. *)
Lemma ends_with_differently (s t x : string) :
  String.length s = String.length t -> s <> t ->
  ends_with s x -> ~ ends_with t x.
Proof.
  intros Hlen Hne (p & ->) (q & H).
  apply Hne. apply (string_app_inj p q); [| exact H].
  assert (Hl : String.length (p ++ s) = String.length (q ++ t))
    by (rewrite H; reflexivity).
  rewrite !string_length_app in Hl. lia.
Qed.

Ltac split_on_ascii_dec :=
  cbn [String.prefix String.append];
  repeat match goal with
         | |- context [ascii_dec ?a ?b] =>
             destruct (ascii_dec a b); try discriminate; subst;
             cbn [String.prefix String.append]
         end.

(** No occurrence of [.csv] starts in a text and ends in the [.csv] that
    follows it. *)
Lemma prefix_csv_app (s : string) :
  s <> EmptyString ->
  String.prefix ".csv" (s ++ ".csv") = String.prefix ".csv" s.
Proof.
  intros Hne.
  destruct s as [| c0 [| c1 [| c2 [| c3 s]]]]; [congruence | | | |];
    split_on_ascii_dec; try reflexivity.
  rewrite !prefix_empty. reflexivity.
Qed.

Lemma prefix_csv_length (c : ascii) (r : string) :
  String.prefix ".csv" (String c r) = true -> 3 <= String.length r.
Proof.
  destruct r as [| c1 [| c2 [| c3 r]]]; split_on_ascii_dec;
    try discriminate; intros _; simpl; lia.
Qed.

(** Replacing in a text that ends with [.csv] replaces in what comes before
    and turns the ending into [.png]. *)
Lemma replace_csv_app :
  forall p skip,
    skip <= String.length p ->
    replace_from ".csv" ".png" skip (p ++ ".csv")
    = (replace_from ".csv" ".png" skip p ++ ".png")%string.
Proof.
  induction p as [| c r IH]; intros skip Hskip.
  - simpl in Hskip. assert (skip = 0) as -> by lia. reflexivity.
  - destruct skip as [| k].
    + change (String c r ++ ".csv")%string with (String c (r ++ ".csv")).
      cbn [replace_from].
      change (String c (r ++ ".csv")) with (String c r ++ ".csv")%string.
      rewrite prefix_csv_app by discriminate.
      destruct (String.prefix ".csv" (String c r)) eqn:Hp.
      * apply prefix_csv_length in Hp.
        change (String.length ".csv" - 1) with 3.
        rewrite (IH 3 Hp). rewrite string_app_assoc. reflexivity.
      * rewrite (IH 0) by lia. reflexivity.
    + simpl in Hskip. simpl. apply IH. lia.
Qed.

Lemma default_output_csv (p : string) :
  default_output (p ++ ".csv") = (default_output p ++ ".png")%string.
Proof.
  unfold default_output, replace. apply replace_csv_app. lia.
Qed.

(** Where [.csv] occurs only as the extension, the default name is the path
    with its extension replaced. *)
Lemma replace_from_no_dot (stem : string) :
  contains "."%char stem = false ->
  replace_from ".csv" ".png" 0 stem = stem.
Proof.
  induction stem as [| c r IH]; [reflexivity |].
  cbn [contains]. intros H. apply orb_false_elim in H as (Hc & Hr).
  cbn [replace_from String.prefix].
  destruct (ascii_dec "." c) as [<- | _]; [discriminate Hc |].
  rewrite (IH Hr). reflexivity.
Qed.

Lemma default_output_plain_stem (stem : string) :
  contains "."%char stem = false ->
  default_output (stem ++ ".csv") = (stem ++ ".png")%string.
Proof.
  intros H. rewrite default_output_csv. unfold default_output, replace.
  rewrite (replace_from_no_dot stem H). reflexivity.
Qed.

Lemma join_ends_with_last (l : list string) :
  l <> [] -> ends_with (last l EmptyString) (join "/" l).
Proof.
  induction l as [| x [| y l] IH]; intros Hne; [congruence | |].
  - exists EmptyString. reflexivity.
  - destruct IH as (p & Hp); [discriminate |].
    exists (x ++ "/" ++ p)%string.
    change (join "/" (x :: y :: l)) with (x ++ "/" ++ join "/" (y :: l))%string.
    rewrite Hp. rewrite !string_app_assoc. reflexivity.
Qed.

Lemma str_joinpath_ends_with (p : PurePath) (rel : list string) :
  rel <> [] -> ends_with (last rel EmptyString) (str (joinpath p rel)).
Proof.
  intros Hne. unfold str, joinpath; simpl.
  assert (Hparts : parts p ++ rel <> []) by (destruct (parts p), rel; simpl; congruence).
  assert (Hlast : last (parts p ++ rel) EmptyString = last rel EmptyString).
  { clear Hparts. induction (parts p) as [| a l IH]; [reflexivity |].
    simpl app. rewrite <- IH.
    destruct (l ++ rel) eqn:Hl; [| reflexivity].
    destruct l, rel; simpl in Hl; congruence. }
  destruct (parts p ++ rel) as [| a l] eqn:Hl; [congruence |].
  change (ends_with (last rel EmptyString)
            (anchor p ++ join "/" (a :: l))%string).
  rewrite <- Hlast.
  destruct (join_ends_with_last (a :: l)) as (q & Hq); [discriminate |].
  exists (anchor p ++ q)%string. rewrite Hq. symmetry. apply string_app_assoc.
Qed.

(** Every path that the scan returns ends with [confusion_matrix.csv]. *)
Lemma rglob_ends_with_suffix (t : node) (directory : string) (f : PurePath) :
  In f (rglob t (Path directory) scan_pattern) -> ends_with suffix (str f).
Proof.
  unfold rglob. destruct (stat t _) as [[c | es] | |]; try contradiction.
  intros Hin. apply in_map_iff in Hin as (rel & <- & Hrel).
  apply rglob_from_spec in Hrel as (_ & Hne & Hm).
  apply fnmatch_scan_pattern in Hm.
  eapply ends_with_trans; [exact Hm |].
  apply str_joinpath_ends_with. exact Hne.
Qed.

(** The file tree is read and never written in this development: an image
    saved during a batch run never takes the place of a file that the run
    still has to read, because its name ends with [.png]. *)
Lemma batch_outputs_are_not_inputs (t : node) (directory : string)
  (f g : PurePath) :
  In f (rglob t (Path directory) scan_pattern) ->
  In g (rglob t (Path directory) scan_pattern) ->
  default_output (str f) <> str g.
Proof.
  intros Hf Hg Heq.
  apply rglob_ends_with_suffix in Hf as (p & Hp), Hg.
  assert (Hpng : ends_with ".png" (default_output (str f))).
  { rewrite Hp.
    change suffix with ("confusion_matrix" ++ ".csv")%string.
    rewrite <- string_app_assoc, default_output_csv.
    eexists; reflexivity. }
  assert (Hcsv : ends_with ".csv" (str g)).
  { eapply ends_with_trans; [| exact Hg]. exists "confusion_matrix". reflexivity. }
  rewrite Heq in Hpng.
  revert Hcsv. apply (ends_with_differently ".png" ".csv"); auto.
  discriminate.
Qed.

(** A directory with no entry, at any depth, whose name ends with
    [confusion_matrix.csv] gives an empty scan. *)
Lemma rglob_from_nothing (t : node) :
  (forall comps n, reaches t comps n -> comps <> [] ->
                   ~ ends_with suffix (last comps EmptyString)) ->
  rglob_from scan_pattern t = [].
Proof.
  intros H. destruct (rglob_from scan_pattern t) as [| c l] eqn:Hscan;
    [reflexivity |].
  assert (Hin : In c (rglob_from scan_pattern t)) by (rewrite Hscan; left; auto).
  apply rglob_from_spec in Hin as ((n & Hn) & Hne & Hm).
  apply fnmatch_scan_pattern in Hm. destruct (H c n Hn Hne Hm).
Qed.

(** * Further properties of the script *)

(** ** Every file of a batch run is accounted for *)

Lemma plot_confusion_matrix_cases (env : Env) (csv_file : string)
  (output_file : option string) :
  (exists e, plot_confusion_matrix env csv_file output_file = ([], Raise e)) \/
  (exists cm,
      plot_confusion_matrix env csv_file output_file =
      ([Savefig (output_path csv_file output_file) (figure_of cm);
        Print ("✓ Saved confusion matrix image: "
                 ++ output_path csv_file output_file)%string], Ok tt)).
Proof.
  unfold plot_confusion_matrix.
  destruct (content <- open_read (root env) csv_file ;; load_matrix content)
    as [cm | e]; [| left; eauto].
  destruct (heatmap_raises env cm) as [e |]; [left; eauto |].
  destruct (savefig_raises env _ _) as [e |]; [left; eauto |].
  right. exists cm. reflexivity.
Qed.

Lemma process_one_cases (env : Env) (f : PurePath) :
  saved_paths (process_one env f)
  = (if succeeded env f then [default_output (str f)] else []) /\
  error_lines (process_one env f) = reported env f.
Proof.
  unfold succeeded, reported, outcome, process_one.
  destruct (plot_confusion_matrix_cases env (str f) None)
    as [(e & ->) | (cm & ->)]; simpl.
  - rewrite prefix_empty. split; reflexivity.
  - split; reflexivity.
Qed.

Lemma flat_map_process_one (env : Env) (files : list PurePath) :
  saved_paths (flat_map (process_one env) files)
  = map (fun f => default_output (str f)) (filter (succeeded env) files) /\
  error_lines (flat_map (process_one env) files) = flat_map (reported env) files.
Proof.
  induction files as [| f files (IHs & IHe)]; [split; reflexivity |].
  simpl flat_map. rewrite saved_paths_app, error_lines_app, IHs, IHe.
  destruct (process_one_cases env f) as (-> & ->).
  simpl filter. destruct (succeeded env f); split; reflexivity.
Qed.

Lemma one_result_per_file (env : Env) (files : list PurePath) :
  length (filter (succeeded env) files) + length (flat_map (reported env) files)
  = length files.
Proof.
  induction files as [| f files IH]; [reflexivity |].
  simpl filter. simpl flat_map. rewrite length_app.
  assert (Hf : length (if succeeded env f then [f] else [])
               + length (reported env f) = 1).
  { unfold succeeded, reported. destruct (outcome env f); reflexivity. }
  destruct (succeeded env f); simpl in *; lia.
Qed.

Lemma plot_all_results (env : Env) (directory : string) :
  saved_paths (plot_all_confusion_matrices env directory)
  = map (fun f => default_output (str f))
        (filter (succeeded env)
                (rglob (root env) (Path directory) scan_pattern)) /\
  error_lines (plot_all_confusion_matrices env directory)
  = flat_map (reported env) (rglob (root env) (Path directory) scan_pattern).
Proof.
  destruct (rglob (root env) (Path directory) scan_pattern) as [| f fs] eqn:Hg.
  - unfold plot_all_confusion_matrices. rewrite Hg. split; reflexivity.
  - rewrite (plot_all_nonempty env directory (f :: fs) Hg) by discriminate.
    rewrite saved_paths_found, error_lines_found.
    apply flat_map_process_one.
Qed.

(** X1.  In a batch run each matching file gives exactly one result, in the
    order of the scan: an image under its default name when the call for it
    returns, one error line naming it when the call raises.  So the images
    and the error lines together are as many as the matching files. *)
Theorem batch_one_result_per_file :
  forall env directory,
    saved_paths (plot_all_confusion_matrices env directory)
    = map (fun f => default_output (str f))
          (filter (succeeded env)
                  (rglob (root env) (Path directory) scan_pattern)) /\
    error_lines (plot_all_confusion_matrices env directory)
    = flat_map (reported env) (rglob (root env) (Path directory) scan_pattern) /\
    length (saved_paths (plot_all_confusion_matrices env directory))
    + length (error_lines (plot_all_confusion_matrices env directory))
    = length (rglob (root env) (Path directory) scan_pattern).
Proof.
  intros env directory.
  destruct (plot_all_results env directory) as (Hs & He).
  split; [exact Hs |]. split; [exact He |].
  rewrite Hs, He, length_map. apply one_result_per_file.
Qed.

Lemma rglob_default_output_png (t : node) (directory : string) (f : PurePath) :
  In f (rglob t (Path directory) scan_pattern) ->
  ends_with ".png" (default_output (str f)).
Proof.
  intros Hf. apply rglob_ends_with_suffix in Hf as (p & ->).
  change suffix with ("confusion_matrix" ++ ".csv")%string.
  rewrite <- string_app_assoc, default_output_csv.
  eexists; reflexivity.
Qed.

(** X2.  Every image that a batch run saves has the default name of a
    matching file, a name that ends with [.png] and is the path of no
    matching file: the run never saves over a file it reads. *)
Theorem batch_saves_beside_inputs :
  forall env directory p,
    In p (saved_paths (plot_all_confusion_matrices env directory)) ->
    ends_with ".png" p /\
    (exists f, In f (rglob (root env) (Path directory) scan_pattern) /\
               succeeded env f = true /\ p = default_output (str f)) /\
    (forall g, In g (rglob (root env) (Path directory) scan_pattern) ->
               p <> str g).
Proof.
  intros env directory p Hin.
  destruct (plot_all_results env directory) as (Hs & _).
  rewrite Hs in Hin. apply in_map_iff in Hin as (f & <- & Hf).
  apply filter_In in Hf as (Hf & Hok).
  split; [eapply rglob_default_output_png; eassumption |].
  split; [exists f; auto |].
  intros g Hg. eapply batch_outputs_are_not_inputs; eassumption.
Qed.

Lemma batch_saves_beside_inputs_witness :
  ends_with ".png" "results/confusion_matrix.png" /\
  (exists f, In f (rglob sample_tree (Path "results") scan_pattern) /\
             succeeded sample_env f = true /\
             "results/confusion_matrix.png" = default_output (str f)) /\
  (forall g, In g (rglob sample_tree (Path "results") scan_pattern) ->
             "results/confusion_matrix.png" <> str g).
Proof.
  apply (batch_saves_beside_inputs sample_env "results").
  left. reflexivity.
Defined.

(** ** Single-file mode and the exit status *)





(** ** When the default name is the path itself *)

Lemma prefix_csv_inv (s : string) :
  String.prefix ".csv" s = true -> exists r, s = (".csv" ++ r)%string.
Proof.
  destruct s as [| c0 [| c1 [| c2 [| c3 r]]]]; split_on_ascii_dec;
    try discriminate.
  intros _. exists r. reflexivity.
Qed.

(** X5.  The default name of the image is the path of the input itself
    exactly when [.csv] occurs nowhere in that path; it is then the input
    path that [savefig] is given. *)
Theorem default_output_unchanged_iff :
  forall path, default_output path = path <-> occurs ".csv" path = false.
Proof.
  unfold default_output, replace.
  induction path as [| c r IH]; [split; reflexivity |].
  cbn [occurs replace_from].
  destruct (String.prefix ".csv" (String c r)) eqn:Hp.
  - apply prefix_csv_inv in Hp as (r' & Hr').
    simpl in Hr'. injection Hr' as -> ->.
    split; [intros H; simpl in H; discriminate H | discriminate].
  - rewrite orb_false_l, <- IH. split.
    + intros H. injection H as H. exact H.
    + intros ->. reflexivity.
Qed.

(** ** What the loader accepts and why it fails *)

Lemma traverse_float_Ok_numeric (cells : list string) (vs : list pyfloat) :
  traverse float cells = Ok vs -> forallb is_numeric cells = true.
Proof.
  intros H. apply traverse_Ok_Forall2 in H. apply forallb_forall.
  intros c Hc. apply float_numeric.
  induction H as [| x y l l' Hx _ IH]; [contradiction |].
  destruct Hc as [<- | Hc]; eauto.
Qed.


(** The rows that the loop parses carry a label and numeric values, and each
    parsed row has as many values as its row has cells after the first. *)
Lemma traverse_parse_row_inv (data : list (list string))
  (parsed : list (string * list pyfloat)) :
  traverse parse_row data = Ok parsed ->
  labelled_numeric data /\
  map (fun p => length (snd p)) parsed
  = map (fun row => length (slice_from_1 row)) data.
Proof.
  intros H. apply traverse_Ok_Forall2 in H.
  induction H as [| row [label vs] data parsed Hrow _ (IHl & IHv)].
  - split; [constructor | reflexivity].
  - apply parse_row_Ok_inv in Hrow as (cells & -> & Hcells). split.
    + constructor; [| assumption]. split; [discriminate |].
      eapply traverse_float_Ok_numeric; eassumption.
    + simpl. rewrite IHv. f_equal. eapply traverse_length; eassumption.
Qed.

Lemma same_lengths_values (data : list (list string))
  (parsed : list (string * list pyfloat)) :
  map (fun p => length (snd p)) parsed
  = map (fun row => length (slice_from_1 row)) data ->
  (forall v, In v (map snd parsed) ->
             exists row, In row data /\ length (slice_from_1 row) = length v) /\
  (forall row, In row data ->
               exists v, In v (map snd parsed) /\
                         length v = length (slice_from_1 row)).
Proof.
  intros Hv. split.
  - intros v Hin. apply in_map_iff in Hin as (p & <- & Hp).
    assert (Hl : In (length (snd p))
                    (map (fun row => length (slice_from_1 row)) data)).
    { rewrite <- Hv. apply (in_map (fun p => length (snd p))). assumption. }
    apply in_map_iff in Hl as (row & Hlen & Hrow). eauto.
  - intros row Hin.
    assert (Hl : In (length (slice_from_1 row))
                    (map (fun p => length (snd p)) parsed)).
    { rewrite Hv.
      apply (in_map (fun row => length (slice_from_1 row))). assumption. }
    apply in_map_iff in Hl as (p & Hlen & Hp).
    exists (snd p). split; [apply in_map; assumption | assumption].
Qed.

Lemma array_Ok_same_length (rows : list (list pyfloat)) (m : ndarray) :
  Np.array rows = Ok m ->
  forall v1 v2, In v1 rows -> In v2 rows -> length v1 = length v2.
Proof.
  unfold Np.array. destruct rows as [| r rs]; [contradiction |].
  destruct (same_length (length r) (r :: rs)) eqn:Hs; [| discriminate].
  intros _ v1 v2 H1 H2. unfold same_length in Hs.
  rewrite forallb_forall in Hs.
  apply Hs in H1. apply Hs in H2.
  apply Nat.eqb_eq in H1. apply Nat.eqb_eq in H2. congruence.
Qed.

Lemma array_Raise_ragged (rows : list (list pyfloat)) (e : exc) :
  Np.array rows = Raise e ->
  exists v1 v2, In v1 rows /\ In v2 rows /\ length v1 <> length v2.
Proof.
  unfold Np.array. destruct rows as [| r rs]; [discriminate |].
  destruct (same_length (length r) (r :: rs)) eqn:Hs; [discriminate |].
  intros _. unfold same_length in Hs.
  assert (Hex : exists v, In v (r :: rs) /\ length v <> length r).
  { clear -Hs. induction (r :: rs) as [| a l IH]; [discriminate |].
    simpl in Hs. destruct (length a =? length r)%nat eqn:Ha.
    - destruct (IH Hs) as (v & Hv & Hl). exists v. split; [right |]; assumption.
    - apply Nat.eqb_neq in Ha. exists a. split; [left; reflexivity | assumption]. }
  destruct Hex as (v & Hv & Hl). exists v, r. split; [assumption |].
  split; [left; reflexivity | assumption].
Qed.

(** X6.  Once the file has been read into a first row and data rows, the
    loader returns a table exactly when every data row has a label and only
    numeric values and all data rows have the same number of values.  The
    first row plays no part in this. *)
Theorem loader_accepts_exactly_rectangular :
  forall content header rows,
    Csv.reader content = Ok (header :: rows) ->
    ((exists cm, load_matrix content = Ok cm)
     <-> labelled_numeric rows /\ ~ ragged rows).
Proof.
  intros content header rows Hr. split.
  - intros (cm & Hcm).
    apply load_matrix_Ok_inv in Hcm
      as (header' & rows' & parsed & Hr' & Ht & Ha & _ & _).
    rewrite Hr in Hr'. injection Hr' as <- <-.
    destruct (traverse_parse_row_inv _ _ Ht) as (Hln & Hv).
    split; [assumption |].
    intros (r1 & r2 & H1 & H2 & Hne).
    destruct (same_lengths_values _ _ Hv) as (_ & Hfind).
    destruct (Hfind r1 H1) as (v1 & Hv1 & Hl1).
    destruct (Hfind r2 H2) as (v2 & Hv2 & Hl2).
    pose proof (array_Ok_same_length _ _ Ha v1 v2 Hv1 Hv2). congruence.
  - intros (Hln & Hrect).
    destruct (traverse_parse_row_Ok rows Hln) as (parsed & Ht & _ & Hv).
    rewrite (load_matrix_on_rows _ _ Hr). unfold parse_rows; simpl.
    rewrite Ht; simpl.
    destruct (Np.array (map snd parsed)) as [m | e] eqn:Ha;
      [eexists; reflexivity |].
    exfalso. apply Hrect.
    apply array_Raise_ragged in Ha as (v1 & v2 & Hv1 & Hv2 & Hne).
    destruct (same_lengths_values _ _ Hv) as (Hfind & _).
    destruct (Hfind v1 Hv1) as (r1 & H1 & Hl1).
    destruct (Hfind v2 Hv2) as (r2 & H2 & Hl2).
    exists r1, r2. split; [assumption |]. split; [assumption | congruence].
Qed.

Lemma loader_accepts_exactly_rectangular_witness :
  (exists cm, load_matrix example_csv = Ok cm)
  <-> labelled_numeric [["X"; "2"; "3"]; ["Y"; "4"; "5"]] /\
      ~ ragged [["X"; "2"; "3"]; ["Y"; "4"; "5"]].
Proof.
  apply (loader_accepts_exactly_rectangular example_csv [""; "A"; "B"]).
  reflexivity.
Defined.

(** X7.  The first row gives the column labels and nothing else: two files
    with the same data rows load to the same row labels and the same array,
    whatever their first rows, also when a first row has more or fewer cells
    than the data rows have values. *)
Theorem header_gives_only_column_labels :
  forall content1 content2 header1 header2 rows cm,
    Csv.reader content1 = Ok (header1 :: rows) ->
    Csv.reader content2 = Ok (header2 :: rows) ->
    load_matrix content1 = Ok cm ->
    load_matrix content2
    = Ok (MkMatrix (slice_from_1 header2) (row_labels cm) (matrix cm)).
Proof.
  intros content1 content2 header1 header2 rows cm H1 H2 Hcm.
  rewrite (load_matrix_on_rows _ _ H1) in Hcm.
  rewrite (load_matrix_on_rows _ _ H2).
  unfold parse_rows in *. simpl in *.
  destruct (traverse parse_row rows) as [parsed |]; simpl in *;
    [| discriminate].
  destruct (Np.array (map snd parsed)) as [m |]; simpl in *; [| discriminate].
  injection Hcm as <-. reflexivity.
Qed.

Lemma header_gives_only_column_labels_witness :
  load_matrix wide_header_csv
  = Ok (MkMatrix ["P"; "Q"; "R"; "S"] ["X"; "Y"]
          (Array [2; 2] [[float_of_nat 2; float_of_nat 3];
                         [float_of_nat 4; float_of_nat 5]])).
Proof.
  apply (header_gives_only_column_labels example_csv wide_header_csv
           [""; "A"; "B"] ["corner"; "P"; "Q"; "R"; "S"]
           [["X"; "2"; "3"]; ["Y"; "4"; "5"]]
           (MkMatrix ["A"; "B"] ["X"; "Y"]
              (Array [2; 2] [[float_of_nat 2; float_of_nat 3];
                             [float_of_nat 4; float_of_nat 5]])));
    reflexivity.
Defined.

(** X8.  Every table that the loader returns has as many row labels as its
    array has rows; the array is either empty with shape (0,), or has the
    shape (rows, k) with every row of length k. *)
Theorem loaded_table_shape :
  forall content cm,
    load_matrix content = Ok cm ->
    length (row_labels cm) = length (Np.data (matrix cm)) /\
    ((Np.data (matrix cm) = [] /\ shape (matrix cm) = [0]) \/
     (exists k,
         Np.data (matrix cm) <> [] /\
         shape (matrix cm) = [length (row_labels cm); k] /\
         Forall (fun r => length r = k) (Np.data (matrix cm)))).
Proof.
  intros content cm H.
  apply load_matrix_Ok_inv in H
    as (header & rows & parsed & _ & _ & Ha & _ & Hl).
  rewrite Hl, length_map. clear Hl.
  unfold Np.array in Ha. destruct (map snd parsed) as [| r rs] eqn:Hrows.
  - injection Ha as <-. simpl.
    destruct parsed; [| discriminate]. split; [reflexivity | left; auto].
  - destruct (same_length (length r) (r :: rs)) eqn:Hs; [| discriminate].
    injection Ha as <-. simpl Np.data. simpl shape.
    assert (Hlen : length parsed = length (r :: rs))
      by (rewrite <- Hrows, length_map; reflexivity).
    split; [exact Hlen |]. right. exists (length r).
    split; [discriminate |]. split; [rewrite Hlen; reflexivity |].
    apply Forall_forall. intros v Hv. unfold same_length in Hs.
    rewrite forallb_forall in Hs. apply Nat.eqb_eq. auto.
Qed.

Lemma loaded_table_shape_witness :
  exists cm,
    load_matrix example_csv = Ok cm /\
    length (row_labels cm) = length (Np.data (matrix cm)) /\
    ((Np.data (matrix cm) = [] /\ shape (matrix cm) = [0]) \/
     (exists k,
         Np.data (matrix cm) <> [] /\
         shape (matrix cm) = [length (row_labels cm); k] /\
         Forall (fun r => length r = k) (Np.data (matrix cm)))).
Proof.
  eexists. split; [reflexivity |].
  apply (loaded_table_shape example_csv). reflexivity.
Defined.



(** ** Line endings *)

Lemma lines_from_to_crlf (s : string) :
  contains CR s = false ->
  forall cur, Csv.lines_from cur (to_crlf s) = Csv.lines_from cur s.
Proof.
  induction s as [| c r IH]; intros Hcr cur; [reflexivity |].
  cbn [contains] in Hcr. apply orb_false_elim in Hcr as (Hc & Hr).
  cbn [to_crlf]. destruct (Ascii.eqb c LF) eqn:Hlf.
  - apply Ascii.eqb_eq in Hlf. subst c.
    cbn [Csv.lines_from].
    change (Ascii.eqb CR LF) with false. change (Ascii.eqb CR CR) with true.
    change (Ascii.eqb LF LF) with true. cbv iota.
    rewrite (IH Hr). reflexivity.
  - cbn [Csv.lines_from]. rewrite Hlf.
    rewrite Ascii.eqb_sym in Hc. rewrite Hc.
    apply IH. assumption.
Qed.

(** X10.  A file written with carriage return and line feed at the end of
    its lines loads exactly as the same file written with line feeds. *)
Theorem crlf_file_loads_alike :
  forall content,
    contains CR content = false ->
    load_matrix (to_crlf content) = load_matrix content.
Proof.
  intros content Hcr. unfold load_matrix, Csv.reader, Csv.readlines.
  rewrite (lines_from_to_crlf content Hcr). reflexivity.
Qed.

Lemma crlf_file_loads_alike_witness :
  load_matrix (to_crlf example_csv) = load_matrix example_csv.
Proof.
  apply (crlf_file_loads_alike example_csv). reflexivity.
Defined.

(** ** The reader on files below the field limit *)

Lemma string_of_rev_cons (c : ascii) (cur : list ascii) :
  string_of_rev (c :: cur) = (string_of_rev cur ++ String c EmptyString)%string.
Proof.
  unfold string_of_rev. simpl.
  assert (H : forall l acc,
             fold_left (fun s c => String c s) l acc
             = (fold_left (fun s c => String c s) l EmptyString ++ acc)%string).
  { induction l as [| x l IH]; intros acc; [reflexivity |].
    simpl. rewrite (IH (String x acc)), (IH (String x EmptyString)).
    rewrite string_app_assoc. reflexivity. }
  apply H.
Qed.

Lemma string_of_rev_length (cur : list ascii) :
  String.length (string_of_rev cur) = length cur.
Proof.
  induction cur as [| c cur IH]; [reflexivity |].
  rewrite string_of_rev_cons, string_length_app, IH. simpl. lia.
Qed.

Lemma no_newline_app (a b : string) :
  no_newline (a ++ b) = no_newline a && no_newline b.
Proof.
  induction a as [| c a IH]; [reflexivity |].
  simpl. rewrite IH, andb_assoc. reflexivity.
Qed.

Lemma no_newline_well_terminated (a : string) :
  no_newline a = true ->
  well_terminated a = true /\
  well_terminated (a ++ String LF EmptyString) = true.
Proof.
  induction a as [| c a IH]; [split; reflexivity |].
  simpl. intros H. apply andb_prop in H as (Hc & Ha).
  apply negb_true_iff in Hc. rewrite Hc. auto.
Qed.

Lemma clean_cons (c : ascii) (cur : list ascii) :
  clean cur -> Csv.is_newline c = false -> clean (c :: cur).
Proof.
  unfold clean. intros Hcur Hc.
  rewrite string_of_rev_cons, no_newline_app, Hcur. simpl. rewrite Hc.
  reflexivity.
Qed.

Lemma clean_line (cur : list ascii) :
  clean cur -> well_terminated (string_of_rev (LF :: cur)) = true.
Proof.
  intros H. rewrite string_of_rev_cons.
  apply no_newline_well_terminated. exact H.
Qed.

(** The lines of a file are well terminated and no longer, together, than
    the file. *)
Lemma lines_from_spec (n : nat) :
  forall s cur,
    String.length s <= n -> clean cur ->
    Forall (fun l => well_terminated l = true) (Csv.lines_from cur s) /\
    total_length (Csv.lines_from cur s) <= length cur + String.length s.
Proof.
  unfold total_length.
  induction n as [| n IH]; intros s cur Hlen Hcur.
  - destruct s; [| simpl in Hlen; lia]. simpl.
    destruct cur as [| c cur]; [split; [constructor | simpl; lia] |].
    split.
    + constructor; [| constructor].
      apply no_newline_well_terminated. exact Hcur.
    + simpl. rewrite string_of_rev_length. simpl. lia.
  - destruct s as [| c r].
    + simpl. destruct cur as [| c cur]; [split; [constructor | simpl; lia] |].
      split.
      * constructor; [| constructor].
        apply no_newline_well_terminated. exact Hcur.
      * simpl. rewrite string_of_rev_length. simpl. lia.
    + simpl in Hlen. cbn [Csv.lines_from].
      destruct (Ascii.eqb c LF) eqn:Hlf.
      { destruct (IH r [] ltac:(lia) eq_refl) as (Hw & Ht). split.
        - constructor; [apply clean_line; exact Hcur | exact Hw].
        - simpl in *. rewrite string_of_rev_length. simpl. lia. }
      destruct (Ascii.eqb c CR) eqn:Hcr.
      { destruct r as [| d r'].
        - split.
          + constructor; [apply clean_line; exact Hcur | constructor].
          + simpl. rewrite string_of_rev_length. simpl. lia.
        - simpl in Hlen. destruct (Ascii.eqb d LF).
          + destruct (IH r' [] ltac:(lia) eq_refl) as (Hw & Ht). split.
            * constructor; [apply clean_line; exact Hcur | exact Hw].
            * simpl in *. rewrite string_of_rev_length. simpl. lia.
          + destruct (IH (String d r') [] ltac:(simpl; lia) eq_refl)
              as (Hw & Ht). split.
            * constructor; [apply clean_line; exact Hcur | exact Hw].
            * simpl in *. rewrite string_of_rev_length. simpl in *. lia. }
      assert (Hc : Csv.is_newline c = false)
        by (unfold Csv.is_newline; rewrite Hlf, Hcr; reflexivity).
      destruct (IH r (c :: cur) ltac:(lia) (clean_cons c cur Hcur Hc))
        as (Hw & Ht).
      split; [exact Hw | simpl in *; lia].
Qed.

Lemma readlines_spec (content : string) :
  Forall (fun l => well_terminated l = true) (Csv.readlines content) /\
  total_length (Csv.readlines content) <= String.length content.
Proof.
  apply (lines_from_spec (String.length content) content []);
    [lia | reflexivity].
Qed.

Ltac run_automaton :=
  unfold Csv.parse_process_char, Csv.start_field, Csv.parse_add_char,
    Csv.set_state, Csv.parse_save_field;
  cbn [Csv.state Csv.field Csv.field_len Csv.fields].

Lemma step_plain (self : Csv.ReaderObj) (c : ascii) :
  Csv.state self <> Csv.EAT_CRNL ->
  Csv.is_newline c = false ->
  (Csv.field_len self < Csv.field_limit)%N ->
  exists self',
    Csv.parse_process_char self (Some c) = Ok self' /\
    Csv.state self' <> Csv.EAT_CRNL /\
    (Csv.field_len self' <= Csv.field_len self + 1)%N.
Proof.
  intros Hst Hnl Hlim. apply N.leb_gt in Hlim.
  destruct self as [st f n fs]. cbn [Csv.state Csv.field_len] in *.
  destruct st; try congruence; run_automaton; rewrite ?Hnl;
    repeat match goal with
           | |- context [Ascii.eqb c ?x] => destruct (Ascii.eqb c x)
           end;
    rewrite ?Hlim; cbn [Py.bind Csv.state Csv.field_len];
    eexists; (split; [reflexivity |]); cbn [Csv.state Csv.field_len];
    (split; [discriminate | lia]).
Qed.

Lemma step_line_feed (self : Csv.ReaderObj) :
  Csv.state self <> Csv.EAT_CRNL ->
  (Csv.field_len self < Csv.field_limit)%N ->
  exists self',
    Csv.parse_process_char self (Some LF) = Ok self' /\
    (Csv.field_len self' <= Csv.field_len self + 1)%N.
Proof.
  intros Hst Hlim. apply N.leb_gt in Hlim.
  destruct self as [st f n fs]. cbn [Csv.state Csv.field_len] in *.
  destruct st; try congruence; run_automaton;
    change (Csv.is_newline LF) with true;
    change (Ascii.eqb LF Csv.quotechar) with false;
    change (Ascii.eqb LF Csv.delimiter) with false;
    cbv iota; rewrite ?Hlim; cbn [Py.bind Csv.state Csv.field_len];
    eexists; (split; [reflexivity |]); cbn [Csv.field_len]; lia.
Qed.

Lemma step_end_of_line (self : Csv.ReaderObj) :
  exists self',
    Csv.parse_process_char self None = Ok self' /\
    (Csv.state self' = Csv.START_RECORD \/
     Csv.state self' = Csv.IN_QUOTED_FIELD) /\
    (Csv.field_len self' <= Csv.field_len self)%N.
Proof.
  destruct self as [st f n fs].
  destruct st; run_automaton; eexists; (split; [reflexivity |]);
    cbn [Csv.state Csv.field_len]; (split; [auto | lia]).
Qed.

(** A well-terminated line is read without an error when the field under
    construction has room for all its characters; afterwards the reader is
    at the start of a record or inside a quoted field. *)
Lemma process_line_total (line : string) :
  forall self,
    well_terminated line = true ->
    Csv.state self <> Csv.EAT_CRNL ->
    (Csv.field_len self + N.of_nat (String.length line) <= Csv.field_limit)%N ->
    exists self',
      Csv.process_line self line = Ok self' /\
      (Csv.state self' = Csv.START_RECORD \/
       Csv.state self' = Csv.IN_QUOTED_FIELD) /\
      (Csv.field_len self'
       <= Csv.field_len self + N.of_nat (String.length line))%N.
Proof.
  induction line as [| c r IH]; intros self Hwt Hst Hlim.
  - destruct (step_end_of_line self) as (self' & Hs & Hstate & Hlen).
    exists self'. simpl. split; [exact Hs |]. split; [exact Hstate | lia].
  - cbn [well_terminated] in Hwt. cbn [String.length] in Hlim.
    cbn [Csv.process_line String.length].
    destruct (Csv.is_newline c) eqn:Hnl.
    + apply andb_prop in Hwt as (Hc & Hr).
      apply Ascii.eqb_eq in Hc. apply String.eqb_eq in Hr. subst c r.
      destruct (step_line_feed self Hst ltac:(lia)) as (s1 & Hs1 & Hl1).
      destruct (step_end_of_line s1) as (s2 & Hs2 & Hstate & Hl2).
      exists s2. rewrite Hs1. cbn [Py.bind Csv.process_line].
      split; [exact Hs2 |]. split; [exact Hstate | simpl; lia].
    + destruct (step_plain self c Hst Hnl ltac:(lia))
        as (s1 & Hs1 & Hst1 & Hl1).
      destruct (IH s1 Hwt Hst1 ltac:(lia)) as (s2 & Hs2 & Hstate & Hl2).
      exists s2. rewrite Hs1. cbn [Py.bind].
      split; [exact Hs2 |]. split; [exact Hstate | lia].
Qed.

Lemma records_total (lines : list string) :
  forall self,
    Forall (fun l => well_terminated l = true) lines ->
    Csv.state self <> Csv.EAT_CRNL ->
    (Csv.field_len self + N.of_nat (total_length lines) <= Csv.field_limit)%N ->
    exists rows, Csv.records self lines = Ok rows.
Proof.
  unfold total_length.
  induction lines as [| line rest IH]; intros self Hwt Hst Hlim.
  - simpl. destruct (_ || _); eexists; reflexivity.
  - inversion Hwt as [| ? ? Hline Hrest]; subst.
    change (list_sum (map String.length (line :: rest)))
      with (String.length line + list_sum (map String.length rest)) in Hlim.
    cbn [Csv.records].
    destruct (process_line_total line self Hline Hst ltac:(lia))
      as (self' & Hs & Hstate & Hlen).
    rewrite Hs. cbn [Py.bind].
    destruct (Csv.state_eqb (Csv.state self') Csv.START_RECORD).
    + destruct (IH Csv.parse_reset Hrest) as (rows & Hrows).
      * discriminate.
      * simpl Csv.field_len. lia.
      * rewrite Hrows. eexists; reflexivity.
    + apply IH; [exact Hrest | | lia].
      destruct Hstate as [-> | ->]; discriminate.
Qed.

(** X11.  [csv.reader] raises on no file of at most 131072 characters, the
    limit on the size of a field; on such a file the loader never ends in
    [csv.Error]. *)
Theorem reader_total_below_field_limit :
  forall content,
    (N.of_nat (String.length content) <= Csv.field_limit)%N ->
    (exists rows, Csv.reader content = Ok rows) /\
    (forall e, load_matrix content = Raise e -> exc_cls e <> CsvError).
Proof.
  intros content Hlen.
  destruct (readlines_spec content) as (Hwt & Htotal).
  assert (Hr : exists rows, Csv.reader content = Ok rows).
  { unfold Csv.reader. apply records_total; [exact Hwt | discriminate |].
    simpl Csv.field_len. lia. }
  split; [exact Hr |].
  destruct Hr as (rows & Hr). intros e He Hcls.
  rewrite (load_matrix_on_rows _ _ Hr) in He.
  destruct (parse_rows rows) as [p | e'] eqn:Hp; simpl in He.
  - destruct (Np.array (map snd (snd p))) eqn:Ha; simpl in He;
      [discriminate |].
    injection He as ->. apply array_raises_class in Ha. congruence.
  - injection He as ->.
    apply parse_rows_raises_class in Hp as [Hp | Hp]; congruence.
Qed.

Lemma reader_total_below_field_limit_witness :
  (exists rows, Csv.reader bad_cell_csv = Ok rows) /\
  (forall e, load_matrix bad_cell_csv = Raise e -> exc_cls e <> CsvError).
Proof.
  apply (reader_total_below_field_limit bad_cell_csv).
  apply N.leb_le. reflexivity.
Defined.

(** ** [float] on counts written in decimal *)













(** ** The reader on plain comma-separated lines *)

Lemma plain_char_inv (c : ascii) :
  plain_char c = true ->
  Ascii.eqb c Csv.delimiter = false /\ Ascii.eqb c Csv.quotechar = false /\
  Csv.is_newline c = false.
Proof.
  unfold plain_char, Csv.is_newline, Csv.delimiter, Csv.quotechar.
  intros H. apply negb_true_iff in H.
  apply orb_false_elim in H as (H & Hlf).
  apply orb_false_elim in H as (H & Hcr).
  apply orb_false_elim in H as (Hd & Hq).
  rewrite Hlf, Hcr. auto.
Qed.

Lemma plain_cell_no_newline (cell : string) :
  plain_cell cell = true -> no_newline cell = true.
Proof.
  induction cell as [| c r IH]; [reflexivity |]. simpl.
  intros H. apply andb_prop in H as (Hc & Hr).
  destruct (plain_char_inv c Hc) as (_ & _ & ->). simpl. auto.
Qed.

Lemma csv_line_no_newline (row : list string) :
  forallb plain_cell row = true -> no_newline (csv_line row) = true.
Proof.
  unfold csv_line.
  induction row as [| c [| d r] IH]; [reflexivity | |]; intros H.
  - simpl in *. apply andb_prop in H as (Hc & _).
    apply plain_cell_no_newline. exact Hc.
  - cbn [forallb] in H. apply andb_prop in H as (Hc & Hr).
    change (join "," (c :: d :: r)) with (c ++ "," ++ join "," (d :: r))%string.
    rewrite !no_newline_app, (plain_cell_no_newline c Hc), (IH Hr).
    reflexivity.
Qed.

Lemma lines_from_line (a rest : string) :
  no_newline a = true ->
  forall cur,
    Csv.lines_from cur (a ++ String LF rest)
    = (string_of_rev cur ++ a ++ String LF EmptyString)%string
      :: Csv.lines_from [] rest.
Proof.
  induction a as [| c a IH]; intros Ha cur.
  - simpl. rewrite string_of_rev_cons. reflexivity.
  - simpl in Ha. apply andb_prop in Ha as (Hc & Ha).
    apply negb_true_iff in Hc. unfold Csv.is_newline in Hc.
    apply orb_false_elim in Hc as (Hlf & Hcr).
    change (String c a ++ String LF rest)%string
      with (String c (a ++ String LF rest)).
    cbn [Csv.lines_from]. rewrite Hlf, Hcr, (IH Ha (c :: cur)).
    rewrite string_of_rev_cons, string_app_assoc. reflexivity.
Qed.

Lemma readlines_unlines (ls : list string) :
  Forall (fun l => no_newline l = true) ls ->
  Csv.readlines (unlines ls)
  = map (fun l => (l ++ String LF EmptyString)%string) ls.
Proof.
  unfold Csv.readlines.
  induction 1 as [| l ls Hl _ IH]; [reflexivity |].
  cbn [unlines map]. rewrite (lines_from_line l _ Hl), IH. reflexivity.
Qed.

Lemma string_of_rev_rev (s : string) :
  string_of_rev (rev (to_list s)) = s.
Proof.
  induction s as [| c r IH]; [reflexivity |].
  unfold string_of_rev in *. cbn [to_list rev].
  rewrite fold_left_app. simpl. rewrite IH. reflexivity.
Qed.

(** Inside a field, the characters of a plain cell are added to the field. *)
Lemma in_field_cell (cell : string) :
  plain_cell cell = true ->
  forall f n fs tail,
    (n + N.of_nat (String.length cell) <= Csv.field_limit)%N ->
    Csv.process_line (Csv.Reader Csv.IN_FIELD f n fs) (cell ++ tail)
    = Csv.process_line
        (Csv.Reader Csv.IN_FIELD (rev (to_list cell) ++ f)
                    (n + N.of_nat (String.length cell)) fs) tail.
Proof.
  induction cell as [| c r IH]; intros Hp f n fs tail Hlim.
  - simpl. rewrite N.add_0_r. reflexivity.
  - cbn [plain_cell] in Hp. apply andb_prop in Hp as (Hc & Hr).
    destruct (plain_char_inv c Hc) as (Hd & _ & Hnl).
    cbn [String.length] in Hlim.
    change (String c r ++ tail)%string with (String c (r ++ tail)).
    cbn [Csv.process_line]. run_automaton. rewrite Hnl, Hd.
    assert (Hroom : (Csv.field_limit <=? n)%N = false)
      by (apply N.leb_gt; lia).
    rewrite Hroom. cbn [Py.bind].
    rewrite (IH Hr (c :: f) (n + 1)%N fs tail) by lia.
    cbn [to_list rev String.length]. rewrite <- app_assoc.
    f_equal. f_equal. lia.
Qed.

(** At the start of a field, a plain cell followed by a comma becomes the
    next field of the record, and the reader is at the start of a field
    again. *)
Lemma start_field_cell_comma (cell : string) (fs : list string)
  (tail : string) :
  plain_cell cell = true ->
  (N.of_nat (String.length cell) <= Csv.field_limit)%N ->
  Csv.process_line (Csv.Reader Csv.START_FIELD [] 0 fs)
                   (cell ++ String "," tail)
  = Csv.process_line (Csv.Reader Csv.START_FIELD [] 0 (cell :: fs)) tail.
Proof.
  intros Hp Hlim. destruct cell as [| c r].
  - reflexivity.
  - cbn [plain_cell] in Hp. apply andb_prop in Hp as (Hc & Hr).
    destruct (plain_char_inv c Hc) as (Hd & Hq & Hnl).
    cbn [String.length] in Hlim.
    change (String c r ++ String "," tail)%string
      with (String c (r ++ String "," tail)).
    cbn [Csv.process_line]. run_automaton. rewrite Hnl, Hq, Hd.
    change (Csv.field_limit <=? 0)%N with false. cbn [Py.bind Csv.state
      Csv.field Csv.field_len Csv.fields].
    rewrite (in_field_cell r Hr [c] (0 + 1)%N fs) by lia.
    cbn [Csv.process_line]. run_automaton.
    change (Csv.is_newline ",") with false.
    change (Ascii.eqb "," Csv.delimiter) with true. cbv iota.
    cbn [Py.bind].
    change (rev (to_list r) ++ [c]) with (rev (to_list (String c r))).
    rewrite string_of_rev_rev. reflexivity.
Qed.

(** The same cell followed by the end of the line closes the record. *)
Lemma start_field_cell_end (cell : string) (fs : list string) :
  plain_cell cell = true ->
  (N.of_nat (String.length cell) <= Csv.field_limit)%N ->
  Csv.process_line (Csv.Reader Csv.START_FIELD [] 0 fs)
                   (cell ++ String LF EmptyString)
  = Ok (Csv.Reader Csv.START_RECORD [] 0 (cell :: fs)).
Proof.
  intros Hp Hlim. destruct cell as [| c r].
  - reflexivity.
  - cbn [plain_cell] in Hp. apply andb_prop in Hp as (Hc & Hr).
    destruct (plain_char_inv c Hc) as (Hd & Hq & Hnl).
    cbn [String.length] in Hlim.
    change (String c r ++ String LF EmptyString)%string
      with (String c (r ++ String LF EmptyString)).
    cbn [Csv.process_line]. run_automaton. rewrite Hnl, Hq, Hd.
    change (Csv.field_limit <=? 0)%N with false. cbn [Py.bind Csv.state
      Csv.field Csv.field_len Csv.fields].
    rewrite (in_field_cell r Hr [c] (0 + 1)%N fs) by lia.
    cbn [Csv.process_line]. run_automaton.
    change (Csv.is_newline LF) with true. cbv iota. cbn [Py.bind].
    change (rev (to_list r) ++ [c]) with (rev (to_list (String c r))).
    rewrite string_of_rev_rev. reflexivity.
Qed.

Lemma start_field_row (cells : list string) :
  cells <> [] ->
  forallb plain_cell cells = true ->
  Forall fits cells ->
  forall fs,
    Csv.process_line (Csv.Reader Csv.START_FIELD [] 0 fs)
                     (csv_line cells ++ String LF EmptyString)
    = Ok (Csv.Reader Csv.START_RECORD [] 0 (rev cells ++ fs)).
Proof.
  unfold csv_line.
  induction cells as [| c [| d r] IH]; intros Hne Hp Hfit fs; [congruence | |].
  - simpl in Hp. apply andb_prop in Hp as (Hc & _).
    inversion Hfit; subst. apply start_field_cell_end; assumption.
  - cbn [forallb] in Hp. apply andb_prop in Hp as (Hc & Hr).
    inversion Hfit as [| ? ? Hfc Hfr]; subst.
    change (join "," (c :: d :: r))
      with (c ++ String "," (join "," (d :: r)))%string.
    rewrite string_app_assoc.
    change ((String "," (join "," (d :: r)) ++ String LF EmptyString)%string)
      with (String "," (join "," (d :: r) ++ String LF EmptyString)).
    rewrite (start_field_cell_comma c fs _ Hc Hfc).
    rewrite (IH ltac:(discriminate) Hr Hfr (c :: fs)).
    cbn [rev]. rewrite <- !app_assoc. reflexivity.
Qed.

(** At the start of a record, a character that is not a line end is read as
    at the start of a field. *)
Lemma start_record_as_start_field (c : ascii) (r : string) :
  Csv.is_newline c = false ->
  Csv.process_line Csv.parse_reset (String c r)
  = Csv.process_line (Csv.Reader Csv.START_FIELD [] 0 []) (String c r).
Proof.
  intros Hnl. cbn [Csv.process_line]. unfold Csv.parse_reset.
  unfold Csv.parse_process_char at 1 2. cbn [Csv.state]. rewrite Hnl.
  reflexivity.
Qed.

Lemma csv_line_first (row : list string) :
  forallb plain_cell row = true -> row <> [] -> row <> [EmptyString] ->
  exists c r, (csv_line row ++ String LF EmptyString)%string = String c r /\
              Csv.is_newline c = false.
Proof.
  unfold csv_line. intros Hp Hne Hne'.
  destruct row as [| [| c cell] rest]; [congruence | |].
  - destruct rest as [| d rest]; [congruence |].
    exists ","%char. eexists. split; reflexivity.
  - cbn [forallb plain_cell] in Hp.
    apply andb_prop in Hp as (Hc & _). apply andb_prop in Hc as (Hc & _).
    destruct (plain_char_inv c Hc) as (_ & _ & Hnl).
    exists c. destruct rest; eexists; (split; [reflexivity | exact Hnl]).
Qed.

Lemma process_line_row (row : list string) :
  forallb plain_cell row = true -> Forall fits row -> row <> [EmptyString] ->
  Csv.process_line Csv.parse_reset (csv_line row ++ String LF EmptyString)
  = Ok (Csv.Reader Csv.START_RECORD [] 0 (rev row)).
Proof.
  intros Hp Hfit Hne. destruct row as [| cell rest] eqn:Hrow; [reflexivity |].
  rewrite <- Hrow in *.
  assert (Hnil : row <> []) by (rewrite Hrow; discriminate).
  destruct (csv_line_first row Hp Hnil Hne) as (c & r & Hline & Hnl).
  rewrite Hline, (start_record_as_start_field c r Hnl), <- Hline.
  rewrite (start_field_row row Hnil Hp Hfit []), app_nil_r. reflexivity.
Qed.

Lemma reader_csv_text (rows : list (list string)) :
  Forall (fun row => forallb plain_cell row = true) rows ->
  Forall (Forall fits) rows ->
  Forall (fun row => row <> [EmptyString]) rows ->
  Csv.reader (csv_text rows) = Ok rows.
Proof.
  intros Hp Hfit Hne. unfold Csv.reader, csv_text.
  rewrite readlines_unlines.
  2:{ apply Forall_forall. intros l Hl.
      apply in_map_iff in Hl as (row & <- & Hrow).
      rewrite Forall_forall in Hp. apply csv_line_no_newline. auto. }
  rewrite map_map.
  induction rows as [| row rows IH]; [reflexivity |].
  inversion Hp; inversion Hfit; inversion Hne; subst.
  cbn [map Csv.records].
  rewrite process_line_row by assumption.
  cbn [Py.bind Csv.state Csv.state_eqb Csv.fields].
  rewrite IH by assumption. cbn [Py.bind]. rewrite rev_involutive.
  reflexivity.
Qed.

(** X13.  On a file of plain lines, each ended by a line feed, the reader
    returns the cells between the commas: for rows of cells without comma,
    double quote or line end, none longer than the field limit, written one
    row a line with commas between the cells, it returns those rows.  (The
    row made of one empty cell is left out: it is written as an empty line,
    which is read as the row without a cell.) *)
Theorem reader_splits_plain_lines :
  forall rows,
    Forall (fun row => forallb plain_cell row = true) rows ->
    Forall (Forall fits) rows ->
    Forall (fun row => row <> [EmptyString]) rows ->
    Csv.reader (csv_text rows) = Ok rows.
Proof. exact reader_csv_text. Qed.

Lemma fits_small (cell : string) :
  (N.of_nat (String.length cell) <=? Csv.field_limit)%N = true -> fits cell.
Proof. apply N.leb_le. Qed.

Lemma reader_splits_plain_lines_witness :
  Csv.reader (csv_text [["h"; "a"; ""]; []; ["X"; "1"; "2"]])
  = Ok [["h"; "a"; ""]; []; ["X"; "1"; "2"]].
Proof.
  apply (reader_splits_plain_lines [["h"; "a"; ""]; []; ["X"; "1"; "2"]]).
  - repeat constructor.
  - repeat constructor; apply fits_small; reflexivity.
  - repeat constructor; discriminate.
Defined.

(** ** From a table of counts to the loaded table *)








(** ** The paths of the scan lead back to what the scan found *)

Lemma string_app_nil_r (s : string) : (s ++ EmptyString)%string = s.
Proof. induction s as [| c s IH]; simpl; [| rewrite IH]; reflexivity. Qed.

Lemma contains_app (c : ascii) (a b : string) :
  contains c (a ++ b) = contains c a || contains c b.
Proof.
  induction a as [| d a IH]; [reflexivity |].
  simpl. rewrite IH, orb_assoc. reflexivity.
Qed.

Lemma split_from_free (sep : ascii) (x : string) :
  contains sep x = false ->
  forall cur, split_from sep cur x = [(string_of_rev cur ++ x)%string].
Proof.
  induction x as [| c r IH]; intros Hx cur.
  - simpl. rewrite string_app_nil_r. reflexivity.
  - simpl in Hx. apply orb_false_elim in Hx as (Hc & Hr).
    rewrite Ascii.eqb_sym in Hc. cbn [split_from]. rewrite Hc.
    rewrite (IH Hr), string_of_rev_cons, string_app_assoc. reflexivity.
Qed.

Lemma split_from_sep (sep : ascii) (x rest : string) :
  contains sep x = false ->
  forall cur,
    split_from sep cur (x ++ String sep rest)
    = (string_of_rev cur ++ x)%string :: split_from sep [] rest.
Proof.
  induction x as [| c r IH]; intros Hx cur.
  - simpl. rewrite Ascii.eqb_refl, string_app_nil_r. reflexivity.
  - simpl in Hx. apply orb_false_elim in Hx as (Hc & Hr).
    rewrite Ascii.eqb_sym in Hc.
    change (String c r ++ String sep rest)%string
      with (String c (r ++ String sep rest)).
    cbn [split_from]. rewrite Hc.
    rewrite (IH Hr), string_of_rev_cons, string_app_assoc. reflexivity.
Qed.

Lemma split_join (l : list string) :
  l <> [] -> Forall (fun x => contains "/"%char x = false) l ->
  split "/" (join "/" l) = l.
Proof.
  unfold split.
  induction l as [| x [| y r] IH]; intros Hne Hfree; [congruence | |].
  - inversion Hfree; subst. simpl. rewrite split_from_free by assumption.
    reflexivity.
  - inversion Hfree as [| ? ? Hx Hrest]; subst.
    change (join "/" (x :: y :: r))
      with (x ++ String "/" (join "/" (y :: r)))%string.
    rewrite (split_from_sep "/" x _ Hx), IH; [reflexivity | discriminate |
                                               assumption].
Qed.

Lemma split_from_elements (sep : ascii) (s : string) :
  forall cur,
    contains sep (string_of_rev cur) = false ->
    Forall (fun x => contains sep x = false) (split_from sep cur s).
Proof.
  induction s as [| c r IH]; intros cur Hcur.
  - constructor; [exact Hcur | constructor].
  - cbn [split_from]. destruct (Ascii.eqb c sep) eqn:Hc.
    + constructor; [exact Hcur | apply IH; reflexivity].
    + apply IH. rewrite string_of_rev_cons, contains_app, Hcur. simpl.
      rewrite Ascii.eqb_sym, Hc. reflexivity.
Qed.

Lemma Path_parts_free (s : string) :
  Forall (fun x => contains "/"%char x = false) (parts (Path s)).
Proof.
  unfold Path; cbn [parts]. apply Forall_forall. intros x Hx.
  apply filter_In in Hx as (Hx & _).
  pose proof (split_from_elements "/" s [] eq_refl) as H.
  rewrite Forall_forall in H. apply H. exact Hx.
Qed.

Lemma Path_anchor (s : string) :
  anchor (Path s) = "//" \/ anchor (Path s) = "/" \/ anchor (Path s) = "".
Proof.
  unfold Path; cbn [anchor].
  destruct (String.prefix "//" s && negb (String.prefix "///" s)); [auto |].
  destruct (String.prefix "/" s); auto.
Qed.

(** The text of a path with components splits into the components of its
    anchor and its own. *)
Lemma split_str (a : string) (l : list string) :
  a = "//" \/ a = "/" \/ a = "" ->
  l <> [] -> Forall (fun x => contains "/"%char x = false) l ->
  split "/" (a ++ join "/" l) = anchor_parts a ++ l.
Proof.
  intros Ha Hne Hfree. pose proof (split_join l Hne Hfree) as Hl.
  unfold split in *.
  destruct Ha as [-> | [-> | ->]]; simpl; rewrite Hl; reflexivity.
Qed.

Lemma walk_path_app (a : list string) :
  forall st cur n b,
    walk_path st cur a = Found n ->
    exists st', walk_path st cur (a ++ b) = walk_path st' n b.
Proof.
  induction a as [| c a IH]; intros st cur n b H.
  - simpl in H. injection H as <-. exists st. reflexivity.
  - cbn [walk_path app] in *. destruct cur as [content | es]; [discriminate |].
    destruct (String.eqb c "" || String.eqb c "."); [eauto |].
    destruct (String.eqb c "..").
    + destruct st; eauto.
    + destruct (find_entry c es); [eauto | discriminate].
Qed.

Lemma walk_path_skip (comps : list string) :
  Forall (fun c => String.eqb c "" || String.eqb c "." = true) comps ->
  forall st es rest,
    walk_path st (Dir es) (comps ++ rest) = walk_path st (Dir es) rest.
Proof.
  induction 1 as [| c comps Hc _ IH]; intros st es rest; [reflexivity |].
  cbn [app walk_path]. rewrite Hc. apply IH.
Qed.

Lemma find_entry_distinct (es : list (string * node)) (name : string)
  (child : node) :
  distinct (map fst es) = true -> In (name, child) es ->
  find_entry name es = Some child.
Proof.
  induction es as [| (n, x) es IH]; intros Hd Hin; [contradiction |].
  cbn [map fst distinct] in Hd. apply andb_prop in Hd as (Hn & Hd).
  cbn [find_entry]. destruct Hin as [Heq | Hin].
  - injection Heq as -> ->. rewrite String.eqb_refl. reflexivity.
  - destruct (String.eqb n name) eqn:Hnn; [| auto].
    apply String.eqb_eq in Hnn. subst n. exfalso.
    apply negb_true_iff in Hn.
    assert (Hex : existsb (String.eqb name) (map fst es) = true).
    { apply existsb_exists. exists name. split; [| apply String.eqb_refl].
      apply (in_map fst) in Hin. exact Hin. }
    congruence.
Qed.

Lemma proper_entry (es : list (string * node)) (name : string) (child : node) :
  proper (Dir es) = true -> In (name, child) es ->
  proper_name name = true /\ proper child = true.
Proof.
  cbn [proper]. intros H Hin. apply andb_prop in H as (_ & H).
  rewrite forallb_forall in H. apply H in Hin.
  apply andb_prop in Hin. exact Hin.
Qed.

Lemma proper_name_inv (name : string) :
  proper_name name = true ->
  String.eqb name "" || String.eqb name "." = false /\
  String.eqb name ".." = false /\ contains "/"%char name = false /\
  name <> EmptyString.
Proof.
  unfold proper_name. intros H.
  apply andb_prop in H as (H & Hs). apply andb_prop in H as (H & Hdd).
  apply andb_prop in H as (He & Hd).
  apply negb_true_iff in He, Hd, Hdd, Hs.
  rewrite He, Hd. repeat split; auto.
  intros ->. discriminate He.
Qed.

(** Walking down the names of a proper tree finds the entries that the names
    stand for. *)
Lemma walk_path_reaches (t : node) (comps : list string) (n : node) :
  reaches t comps n -> proper t = true ->
  forall st, walk_path st t comps = Found n.
Proof.
  induction 1 as [t | es name child comps n Hin _ IH]; intros Hp st;
    [reflexivity |].
  destruct (proper_entry es name child Hp Hin) as (Hname & Hchild).
  destruct (proper_name_inv name Hname) as (Hskip & Hup & _ & _).
  cbn [walk_path]. rewrite Hskip, Hup.
  rewrite (find_entry_distinct es name child); [apply IH; exact Hchild | |
                                                 exact Hin].
  cbn [proper] in Hp. apply andb_prop in Hp as (Hd & _). exact Hd.
Qed.

Lemma find_entry_In (es : list (string * node)) (name : string) (child : node) :
  find_entry name es = Some child -> In (name, child) es.
Proof.
  induction es as [| (n, x) es IH]; [discriminate |].
  cbn [find_entry]. destruct (String.eqb n name) eqn:Hn.
  - intros H. injection H as ->. apply String.eqb_eq in Hn. subst n.
    left. reflexivity.
  - intros H. right. auto.
Qed.

(** Path resolution in a proper tree ends in a proper tree. *)
Lemma walk_path_proper (comps : list string) :
  forall st cur n,
    walk_path st cur comps = Found n ->
    proper cur = true -> forallb proper st = true -> proper n = true.
Proof.
  induction comps as [| c comps IH]; intros st cur n H Hcur Hst.
  - simpl in H. injection H as <-. exact Hcur.
  - cbn [walk_path] in H. destruct cur as [content | es]; [discriminate |].
    destruct (String.eqb c "" || String.eqb c "."); [eauto |].
    destruct (String.eqb c "..").
    + destruct st as [| up st]; [eauto |].
      cbn [forallb] in Hst. apply andb_prop in Hst as (Hup & Hst). eauto.
    + destruct (find_entry c es) as [child |] eqn:Hf; [| discriminate].
      apply find_entry_In in Hf.
      destruct (proper_entry es c child Hcur Hf) as (_ & Hchild).
      eapply IH; [exact H | exact Hchild |].
      cbn [forallb]. rewrite Hcur, Hst. reflexivity.
Qed.

Lemma stat_walk (t : node) (path : string) (n : node) :
  stat t path = Found n ->
  path <> EmptyString /\ walk_path [] t (split "/" path) = Found n.
Proof.
  unfold stat. destruct path; [discriminate |]. intros H.
  split; [discriminate | exact H].
Qed.

Lemma reaches_names (t : node) (comps : list string) (n : node) :
  reaches t comps n -> proper t = true ->
  Forall (fun x => proper_name x = true) comps.
Proof.
  induction 1 as [t | es name child comps n Hin _ IH]; intros Hp;
    [constructor |].
  destruct (proper_entry es name child Hp Hin) as (Hname & Hchild).
  constructor; auto.
Qed.

Lemma anchor_parts_skip (a : string) :
  Forall (fun c => String.eqb c "" || String.eqb c "." = true) (anchor_parts a).
Proof.
  unfold anchor_parts.
  destruct (String.eqb a "//"); [repeat constructor |].
  destruct (String.eqb a "/"); repeat constructor.
Qed.

Lemma resolves_to_found (t : node) (directory : string)
  (es : list (string * node)) (comps : list string) (n : node) :
  proper t = true ->
  stat t (str (Path directory)) = Found (Dir es) ->
  reaches (Dir es) comps n -> comps <> [] ->
  stat t (str (joinpath (Path directory) comps)) = Found n.
Proof.
  intros Hp Hstat Hreach Hne.
  apply stat_walk in Hstat as (_ & Hwalk).
  assert (Hsub : proper (Dir es) = true)
    by (eapply walk_path_proper; [exact Hwalk | exact Hp | reflexivity]).
  pose proof (reaches_names _ _ _ Hreach Hsub) as Hnames.
  assert (Hfree : Forall (fun x => contains "/"%char x = false)
                         (parts (Path directory) ++ comps)).
  { apply Forall_app. split; [apply Path_parts_free |].
    eapply Forall_impl; [| exact Hnames].
    intros x Hx. apply proper_name_inv in Hx. tauto. }
  assert (Hall : parts (Path directory) ++ comps <> [])
    by (destruct (parts (Path directory)), comps; simpl; congruence).
  assert (Hsplit : split "/" (str (joinpath (Path directory) comps))
                   = anchor_parts (anchor (Path directory))
                     ++ parts (Path directory) ++ comps).
  { unfold str, joinpath. cbn [parts anchor].
    destruct (parts (Path directory) ++ comps) as [| a l] eqn:Hl;
      [congruence |].
    apply split_str; [apply Path_anchor | discriminate | exact Hfree]. }
  assert (Hnonempty : str (joinpath (Path directory) comps) <> EmptyString).
  { intros Heq. rewrite Heq in Hsplit.
    destruct (str_joinpath_ends_with (Path directory) comps Hne) as (q & Hq).
    rewrite Heq in Hq.
    assert (Hlast : last comps EmptyString = EmptyString)
      by (destruct q; [symmetry; exact Hq | discriminate]).
    assert (Hin : In (last comps EmptyString) comps).
    { clear -Hne. induction comps as [| x [| y r] IH]; [congruence | left; auto |].
      right. apply IH. discriminate. }
    rewrite Forall_forall in Hnames. apply Hnames in Hin.
    apply proper_name_inv in Hin. tauto. }
  unfold stat.
  destruct (str (joinpath (Path directory) comps)) eqn:Hstr; [congruence |].
  rewrite <- Hstr in *. rewrite Hsplit.
  destruct (parts (Path directory)) as [| part more] eqn:Hparts.
  - (* the directory is the anchor or the working directory *)
    assert (Hroot : Dir es = t).
    { unfold str in Hwalk. rewrite Hparts in Hwalk.
      destruct (Path_anchor directory) as [Ha | [Ha | Ha]];
        rewrite Ha in Hwalk; destruct t; simpl in Hwalk;
        try discriminate; injection Hwalk as <-; reflexivity. }
    subst t. simpl app.
    rewrite (walk_path_skip _ (anchor_parts_skip _)).
    apply walk_path_reaches; assumption.
  - unfold str in Hwalk. rewrite Hparts in Hwalk.
    rewrite split_str in Hwalk;
      [| apply Path_anchor | discriminate |
       rewrite <- Hparts; apply Path_parts_free].
    rewrite app_assoc.
    destruct (walk_path_app _ [] t (Dir es) comps Hwalk) as (st' & ->).
    apply walk_path_reaches; assumption.
Qed.

Lemma ends_with_suffix_nonempty (comps : list string) :
  ends_with suffix (last comps EmptyString) -> comps <> [].
Proof.
  intros (p & Hp) ->. simpl in Hp. destruct p; discriminate.
Qed.

Lemma scan_finds (t : node) (directory : string) (es : list (string * node))
  (comps : list string) (n : node) :
  stat t (str (Path directory)) = Found (Dir es) ->
  reaches (Dir es) comps n ->
  ends_with suffix (last comps EmptyString) ->
  In (joinpath (Path directory) comps) (rglob t (Path directory) scan_pattern).
Proof.
  intros Hstat Hreach Hm. unfold rglob. rewrite Hstat. apply in_map.
  apply rglob_from_spec. split; [eauto |].
  split; [apply ends_with_suffix_nonempty; exact Hm |].
  apply fnmatch_scan_pattern. exact Hm.
Qed.

(** X15.  In a proper tree, the scan and [open] agree: an entry below the
    scanned directory whose name ends with [confusion_matrix.csv] is among
    the results of the scan, and opening the path returned for it yields
    the content of that very file, or fails with [IsADirectoryError] when
    the entry is a directory.  The path is never found missing. *)
Theorem scan_opens_what_it_found :
  forall t directory es comps n,
    proper t = true ->
    stat t (str (Path directory)) = Found (Dir es) ->
    reaches (Dir es) comps n ->
    ends_with suffix (last comps EmptyString) ->
    In (joinpath (Path directory) comps)
       (rglob t (Path directory) scan_pattern) /\
    match n with
    | File content =>
        open_read t (str (joinpath (Path directory) comps)) = Ok content
    | Dir _ =>
        raises_cls (open_read t (str (joinpath (Path directory) comps)))
                   IsADirectoryError
    end.
Proof.
  intros t directory es comps n Hp Hstat Hreach Hm.
  split; [eapply scan_finds; eassumption |].
  pose proof (resolves_to_found t directory es comps n Hp Hstat Hreach
                (ends_with_suffix_nonempty comps Hm)) as Hfound.
  unfold open_read. rewrite Hfound. destruct n as [content | sub].
  - reflexivity.
  - eexists. split; reflexivity.
Qed.

Lemma scan_opens_what_it_found_witness :
  In (joinpath (Path "results/") ["j48"; "my_confusion_matrix.csv"])
     (rglob sample_tree (Path "results/") scan_pattern) /\
  open_read sample_tree
    (str (joinpath (Path "results/") ["j48"; "my_confusion_matrix.csv"]))
  = Ok example_csv.
Proof.
  eapply (scan_opens_what_it_found sample_tree "results/" _
            ["j48"; "my_confusion_matrix.csv"] (File example_csv)).
  - reflexivity.
  - reflexivity.
  - econstructor; [right; right; right; left; reflexivity |].
    econstructor; [left; reflexivity | constructor].
  - exists "my_". reflexivity.
Defined.

(** X16.  A directory whose name ends with [confusion_matrix.csv] counts as
    a matching file: in a proper tree the batch run names it in an error
    line, with the message of [IsADirectoryError], and saves no image for
    it. *)
Theorem batch_reports_matching_directory :
  forall env directory es comps sub,
    proper (root env) = true ->
    stat (root env) (str (Path directory)) = Found (Dir es) ->
    reaches (Dir es) comps (Dir sub) ->
    ends_with suffix (last comps EmptyString) ->
    In (joinpath (Path directory) comps)
       (rglob (root env) (Path directory) scan_pattern) /\
    succeeded env (joinpath (Path directory) comps) = false /\
    In ("✗ Error processing " ++ str (joinpath (Path directory) comps)
          ++ ": [Errno 21] Is a directory: "
          ++ repr (str (joinpath (Path directory) comps)))%string
       (error_lines (plot_all_confusion_matrices env directory)).
Proof.
  intros env directory es comps sub Hp Hstat Hreach Hm.
  pose proof (scan_finds _ _ _ _ _ Hstat Hreach Hm) as Hin.
  pose proof (resolves_to_found _ directory es comps (Dir sub) Hp Hstat Hreach
                (ends_with_suffix_nonempty comps Hm)) as Hfound.
  assert (Hout : outcome env (joinpath (Path directory) comps)
                 = Raise (Exc IsADirectoryError
                            ("[Errno 21] Is a directory: "
                               ++ repr (str (joinpath (Path directory) comps))))).
  { unfold outcome, plot_confusion_matrix, open_read. rewrite Hfound.
    reflexivity. }
  split; [exact Hin |]. split.
  - unfold succeeded. rewrite Hout. reflexivity.
  - destruct (plot_all_results env directory) as (_ & ->).
    apply in_flat_map. exists (joinpath (Path directory) comps).
    split; [exact Hin |]. unfold reported. rewrite Hout.
    left. reflexivity.
Qed.

Lemma batch_reports_matching_directory_witness :
  plot_all_confusion_matrices
    (MkEnv tree_with_matching_directory (fun _ => None) (fun _ _ => None))
    "runs"
  = [Print "Found 1 confusion matrix file(s)";
     Print "✗ Error processing runs/old_confusion_matrix.csv: [Errno 21] Is a directory: 'runs/old_confusion_matrix.csv'"]
  /\
  In "✗ Error processing runs/old_confusion_matrix.csv: [Errno 21] Is a directory: 'runs/old_confusion_matrix.csv'"%string
     (error_lines
        (plot_all_confusion_matrices
           (MkEnv tree_with_matching_directory (fun _ => None)
                  (fun _ _ => None)) "runs")).
Proof.
  split; [reflexivity |].
  eapply (batch_reports_matching_directory
            (MkEnv tree_with_matching_directory (fun _ => None)
                   (fun _ _ => None))
            "runs" _ ["old_confusion_matrix.csv"] _).
  - reflexivity.
  - reflexivity.
  - econstructor; [left; reflexivity | constructor].
  - exists "old_". reflexivity.
Defined.

(** ** The directory argument with a slash at its end *)

Lemma split_from_trailing (sep : ascii) (s : string) :
  forall cur,
    split_from sep cur (s ++ String sep EmptyString)
    = split_from sep cur s ++ [EmptyString].
Proof.
  induction s as [| c r IH]; intros cur.
  - simpl. rewrite Ascii.eqb_refl. reflexivity.
  - change (String c r ++ String sep EmptyString)%string
      with (String c (r ++ String sep EmptyString)).
    cbn [split_from]. destruct (Ascii.eqb c sep).
    + rewrite IH. reflexivity.
    + apply IH.
Qed.

Lemma Path_trailing_slash (d : string) :
  d <> EmptyString -> String.prefix "/" d = false ->
  Path (d ++ "/") = Path d.
Proof.
  intros Hne Hrel. destruct d as [| c r]; [congruence |].
  unfold Path, split. rewrite split_from_trailing, filter_app.
  cbn [filter is_real_part String.eqb orb negb]. rewrite app_nil_r.
  f_equal.
  change (String c r ++ "/")%string with (String c (r ++ "/")).
  cbn [String.prefix] in *.
  destruct (ascii_dec "/" c); [rewrite prefix_empty in Hrel; discriminate |].
  reflexivity.
Qed.

(** X17.  A relative directory is scanned alike with and without a slash at
    its end, and when a file matches the whole batch run is the same. *)
Theorem trailing_slash_same_run :
  forall env d,
    d <> EmptyString -> String.prefix "/" d = false ->
    rglob (root env) (Path (d ++ "/")) scan_pattern
    = rglob (root env) (Path d) scan_pattern /\
    (rglob (root env) (Path d) scan_pattern <> [] ->
     plot_all_confusion_matrices env (d ++ "/")
     = plot_all_confusion_matrices env d).
Proof.
  intros env d Hne Hrel. pose proof (Path_trailing_slash d Hne Hrel) as Hp.
  split; [rewrite Hp; reflexivity |].
  intros Hfiles. unfold plot_all_confusion_matrices. rewrite Hp.
  destruct (rglob (root env) (Path d) scan_pattern); [congruence | reflexivity].
Qed.

Lemma trailing_slash_same_run_witness :
  rglob sample_tree (Path ("results" ++ "/")) scan_pattern
  = rglob sample_tree (Path "results") scan_pattern /\
  (rglob sample_tree (Path "results") scan_pattern <> [] ->
   plot_all_confusion_matrices sample_env ("results" ++ "/")
   = plot_all_confusion_matrices sample_env "results").
Proof.
  apply (trailing_slash_same_run sample_env "results");
    [discriminate | reflexivity].
Defined.

(** ** What a saved figure shows *)


